(** * The session event monitor of [agent/entrypoint.py]

    A shallow embedding of the part of [main] that consumes the stream of
    SDK messages (lines 213-384 of [entrypoint.py]) together with
    [ProgressTracker], and the properties of that code.  The start of
    [main] (lines 84-211) and the local runner [run.py] follow, with the
    POSIX paths of [pathlib] that they compute with.

    Conventions.
    - A Python [str] is a [string]; its characters are read as the code
      points U+0000..U+00FF, so [str.lower] and [str.strip] are the
      restrictions of the Python methods to that range.
    - A [dict] with string keys is a [gmap string string]; [tools_used],
      a Python [set], is a [gset string].
    - [log] prints a time stamp and a message; the model keeps the
      messages, in order, as [log_line] values and leaves the clock out.
      For the same reason [ProgressTracker.start_time] is not modelled. *)

From Stdlib Require Import Ascii String NArith.
From stdpp Require Import base decidable list gmap strings sorting.

Local Open Scope string_scope.
Local Open Scope list_scope.

(** ** Python string operations *)

Module Str.

(** [str.isspace] on one character: CPython's [_PyUnicode_IsWhitespace]
    below U+0100. *)
Definition isspace (c : ascii) : bool :=
  let n := N_of_ascii c in
  ((9 <=? n) && (n <=? 13) || (28 <=? n) && (n <=? 32)
   || (n =? 133) || (n =? 160))%N.

(** [str.lower] on one character below U+0100: A-Z and the upper case
    letters U+00C0..U+00DE (U+00D7, the multiplication sign, is not a
    letter) move up by 32. *)
Definition lower_char (c : ascii) : ascii :=
  let n := N_of_ascii c in
  if ((65 <=? n) && (n <=? 90)
      || (192 <=? n) && (n <=? 222) && negb (n =? 215))%N
  then ascii_of_N (n + 32) else c.

(** [s.lower()] *)
Fixpoint lower (s : string) : string :=
  match s with
  | "" => ""
  | String c s' => String (lower_char c) (lower s')
  end.

(** [s[:n]] *)
Fixpoint take (n : nat) (s : string) : string :=
  match n, s with
  | S n', String c s' => String c (take n' s')
  | _, _ => ""
  end.

(** [s.startswith(k)] *)
Fixpoint startswith (k s : string) : bool :=
  match k, s with
  | "", _ => true
  | String a k', String b s' =>
      if decide (a = b) then startswith k' s' else false
  | String _ _, "" => false
  end.

(** [k in s] *)
Fixpoint contains (k s : string) : bool :=
  startswith k s
  || match s with
     | "" => false
     | String _ s' => contains k s'
     end.

(** [s.lstrip()] *)
Fixpoint lstrip (s : string) : string :=
  match s with
  | "" => ""
  | String c s' => if isspace c then lstrip s' else s
  end.

(** [s.rstrip()] *)
Fixpoint rstrip (s : string) : string :=
  match s with
  | "" => ""
  | String c s' =>
      match rstrip s' with
      | "" => if isspace c then "" else String c ""
      | r => String c r
      end
  end.

(** [s.strip()] *)
Definition strip (s : string) : string := rstrip (lstrip s).

(** Every character of [s] is white space ([s] may be empty). *)
Fixpoint all_space (s : string) : bool :=
  match s with
  | "" => true
  | String c s' => isspace c && all_space s'
  end.

(** No character of [s] is white space. *)
Fixpoint no_space (s : string) : bool :=
  match s with
  | "" => true
  | String c s' => negb (isspace c) && no_space s'
  end.

(** [c * n] for a one-character string [c] *)
Fixpoint repeat (c : ascii) (n : nat) : string :=
  match n with
  | 0 => ""
  | S n' => String c (repeat c n')
  end.

(** [len(s.split("\n"))]: one more than the number of line feeds. *)
Fixpoint line_count (s : string) : nat :=
  match s with
  | "" => 1
  | String c s' =>
      (if decide (c = "010"%char) then 1 else 0) + line_count s'
  end.

End Str.

(** ** Messages of the SDK *)

(** The content blocks of an [AssistantMessage].  [is_error] of a
    [ToolResultBlock] is read through [hasattr]: [None] is a block
    without the attribute, [Some None] the attribute holding Python's
    [None], [Some (Some b)] the attribute holding the boolean [b].
    [OtherBlock] stands for any block of another class. *)
Inductive block :=
  | ToolUseBlock (name : string) (input : gmap string string)
  | ToolResultBlock (is_error : option (option bool))
  | TextBlock (text : string)
  | OtherBlock.

(** A message of [client.receive_response()]; only [AssistantMessage] is
    looked at. *)
Inductive message :=
  | AssistantMessage (content : list block)
  | OtherMessage.

(** ** ProgressTracker *)

Record ProgressTracker := mkTracker {
  files_read : list string;
  files_written : list string;
  commands_run : list string;
  searches_performed : list string;
}.

(** [ProgressTracker.__init__] *)
Definition new_tracker : ProgressTracker := mkTracker [] [] [] [].

Definition add_file_read (path : string) (t : ProgressTracker) :=
  mkTracker (files_read t ++ [path]) (files_written t)
            (commands_run t) (searches_performed t).

Definition add_file_written (path : string) (t : ProgressTracker) :=
  mkTracker (files_read t) (files_written t ++ [path])
            (commands_run t) (searches_performed t).

Definition add_command (cmd : string) (t : ProgressTracker) :=
  mkTracker (files_read t) (files_written t)
            (commands_run t ++ [cmd]) (searches_performed t).

Definition add_search (pattern : string) (t : ProgressTracker) :=
  mkTracker (files_read t) (files_written t)
            (commands_run t) (searches_performed t ++ [pattern]).

(** The four counts of [get_summary], in the order it prints them. *)
Definition get_summary (t : ProgressTracker) : list nat :=
  [length (files_read t); length (files_written t);
   length (commands_run t); length (searches_performed t)].

(** ** The log *)

(** One constructor per [log(...)] call of the modelled code, carrying
    the values its f-string interpolates.  The text after [=>] is the
    message, without pictograph and colour codes. *)
Inductive log_line :=
  | LogInitializing                  (* => Initializing Claude SDK... *)
  | LogSeparator                     (* => the horizontal rule *)
  | LogRunningAnalysis               (* => Running AI agent context analysis ... *)
  | LogMonitoring                    (* => Monitoring Claude's progress... *)
  | LogRealTime                      (* => (Real-time tool usage ... shown below) *)
  | LogReading (file_path : string)  (* => Reading: {file_path} *)
  | LogWriting (file_path : string)  (* => Writing: {file_path} *)
  | LogRunning (command : string)    (* => Running: {command}... *)
  | LogSearching (pattern path : string) (* => Searching '{pattern}' in {path} *)
  | LogFinding (pattern : string)    (* => Finding files: {pattern} *)
  | LogUsingTool (tool_name : string) (* => Using tool: {tool_name} *)
  | LogToolFailed                    (* => Tool execution failed *)
  | LogClaudeCut (head : string)     (* => Claude: {text[:100]}... *)
  | LogClaude (text : string)        (* => Claude: {text} *)
  | LogCompletedOk                   (* => ... generation completed successfully! *)
  | LogBlank                         (* => the empty message *)
  | LogFinalResults                  (* => Final Results: *)
  | LogToolsUsed (names : list string) (* => - Tools used: {', '.join(names)} *)
  | LogStatistics                    (* => Analysis Statistics: *)
  | LogSummary (counts : list nat)   (* => the lines of get_summary() *)
  | LogReportFile (path : string)    (* => - Recommendations file: {path} *)
  | LogFileSize (size : N)           (* => - File size: {size:,} bytes *)
  | LogContentLines (n : nat)        (* => - Content lines: {n} *)
  | LogStepSummaryWritten            (* => ... written to GitHub Actions step summary *)
  | LogLocalFile                     (* => Recommendations available in local file *)
  | LogCouldNotRead (e : string)     (* => Could not read recommendations file: {e} *)
  | LogNoReport (path : string)      (* => Warning: No recommendations file created: {path} *)
  | LogCLINotFound (e : string)      (* => Claude CLI not found: {e} *)
  | LogCLIHint                       (* => Make sure Claude CLI is properly installed ... *)
  | LogProcessError (e : string)     (* => Claude process error: {e} *)
  | LogUnexpected (e : string)       (* => Unexpected error during Claude execution: {e} *)
  | LogCompletedAt.                  (* => Completed at: ... *)

Global Instance log_line_eq_dec : EqDecision log_line.
Proof. solve_decision. Defined.

(** The lines that show Claude's reasoning. *)
Definition is_reasoning_line (l : log_line) : bool :=
  match l with
  | LogClaudeCut _ | LogClaude _ => true
  | _ => false
  end.

(** ** The state of the monitor *)

(** The variables of [main] that the loop reads and writes, the lines
    logged so far, and what has been appended to the step summary. *)
Record monitor := mkMonitor {
  tracker : ProgressTracker;
  tools_used : gset string;
  claude_reasoning_count : nat;
  output : list log_line;
  step_summary : list string;
}.

Definition initial : monitor := mkMonitor new_tracker ∅ 0 [] [].

Definition log (l : log_line) (st : monitor) : monitor :=
  mkMonitor (tracker st) (tools_used st) (claude_reasoning_count st)
            (output st ++ [l]) (step_summary st).

Definition on_tracker (f : ProgressTracker → ProgressTracker)
    (st : monitor) : monitor :=
  mkMonitor (f (tracker st)) (tools_used st) (claude_reasoning_count st)
            (output st) (step_summary st).

Definition tools_used_add (tool_name : string) (st : monitor) : monitor :=
  mkMonitor (tracker st) ({[tool_name]} ∪ tools_used st)
            (claude_reasoning_count st) (output st) (step_summary st).

Definition set_reasoning_count (n : nat) (st : monitor) : monitor :=
  mkMonitor (tracker st) (tools_used st) n (output st) (step_summary st).

Definition append_step_summary (s : string) (st : monitor) : monitor :=
  mkMonitor (tracker st) (tools_used st) (claude_reasoning_count st)
            (output st) (step_summary st ++ [s]).

(** [d.get(key, dflt)] *)
Definition get (d : gmap string string) (key dflt : string) : string :=
  default dflt (d !! key).

(** ** The body of the loop *)

(** The keywords of lines 301-311. *)
Definition keywords : list string :=
  ["analysis"; "recommendations"; "found"; "creating"; "complete";
   "examining"; "checking"; "writing"; "generating"].

(** [any(keyword in text.lower() for keyword in [...])] *)
Definition any_keyword (text : string) : bool :=
  existsb (λ keyword, Str.contains keyword (Str.lower text)) keywords.

(** The [ToolUseBlock] branch, lines 258-286. *)
Definition handle_tool_use (tool_name : string) (input : gmap string string)
    (st : monitor) : monitor :=
  let st := tools_used_add tool_name st in
  if decide (tool_name = "Read") then
    let file_path := get input "file_path" "" in
    on_tracker (add_file_read file_path) (log (LogReading file_path) st)
  else if decide (tool_name ∈ ["Write"; "MultiEdit"; "Edit"]) then
    let file_path := get input "file_path" "" in
    on_tracker (add_file_written file_path) (log (LogWriting file_path) st)
  else if decide (tool_name = "Bash") then
    let command := Str.take 100 (get input "command" "") in
    on_tracker (add_command command) (log (LogRunning command) st)
  else if decide (tool_name = "Grep") then
    let pattern := get input "pattern" "" in
    let path := get input "path" "." in
    on_tracker (add_search pattern) (log (LogSearching pattern path) st)
  else if decide (tool_name = "Glob") then
    let pattern := get input "pattern" "" in
    on_tracker (add_search pattern) (log (LogFinding pattern) st)
  else
    log (LogUsingTool tool_name) st.

(** The truth value of [hasattr(block, "is_error") and block.is_error]. *)
Definition is_error_true (is_error : option (option bool)) : bool :=
  match is_error with
  | Some (Some true) => true
  | _ => false
  end.

(** The [ToolResultBlock] branch, lines 289-290. *)
Definition handle_tool_result (is_error : option (option bool))
    (st : monitor) : monitor :=
  if is_error_true is_error then log LogToolFailed st else st.

(** The [TextBlock] branch, lines 293-317; [text] is the stripped text,
    which is not empty. *)
Definition handle_text (text : string) (st : monitor) : monitor :=
  let st := set_reasoning_count (claude_reasoning_count st + 1) st in
  if (claude_reasoning_count st `mod` 2 =? 0)%nat || any_keyword text then
    if (100 <? String.length text)%nat
    then log (LogClaudeCut (Str.take 100 text)) st
    else log (LogClaude text) st
  else st.

(** One iteration of [for block in message.content], lines 257-317. *)
Definition handle_block (st : monitor) (b : block) : monitor :=
  match b with
  | ToolUseBlock tool_name input => handle_tool_use tool_name input st
  | ToolResultBlock is_error => handle_tool_result is_error st
  | TextBlock text =>
      if decide (Str.strip text = "") then st
      else handle_text (Str.strip text) st
  | OtherBlock => st
  end.

(** One iteration of [async for message in ...], lines 255-317. *)
Definition handle_message (st : monitor) (m : message) : monitor :=
  match m with
  | AssistantMessage content => foldl handle_block st content
  | OtherMessage => st
  end.

(** The whole loop over the messages received. *)
Definition receive_loop (messages : list message) (st : monitor) : monitor :=
  foldl handle_message st messages.

(** ** Exceptions and the world outside the monitor *)

(** The exception classes that the [except] clauses of [main] tell
    apart; [OtherException] is any other subclass of [Exception]. *)
Inductive exception_class :=
  | CLINotFoundError
  | ProcessError
  | OtherException.

(** A raised exception: its class and the text of [str(e)]. *)
Record exception := mkException {
  class_of : exception_class;
  message_of : string;
}.

(** What the collaborators of [main] answer during one run.  A call that
    can raise answers [inl e] when it raises [e]. *)
Record world := mkWorld {
  (** [async with ClaudeSDKClient(...)] and [client.connect()] *)
  connect : exception + ();
  (** [client.query(optimizer_prompt)] *)
  query : exception + ();
  (** the messages [client.receive_response()] yields ... *)
  receive_response : list message;
  (** ... and how the stream ends *)
  receive_response_end : exception + ();
  (** [str(recommendations_file)] *)
  recommendations_file : string;
  (** [recommendations_file.exists()] *)
  report_exists : bool;
  (** [recommendations_file.stat().st_size] *)
  report_st_size : exception + N;
  (** [recommendations_file.read_text(encoding="utf-8")] *)
  report_read_text : exception + string;
  (** [os.getenv("GITHUB_STEP_SUMMARY")] *)
  github_step_summary : option string;
  (** opening and writing the step summary file *)
  step_summary_write : exception + ();
}.

(** The places where [main] stops a run, named as the outcomes they
    stand for: [sys.exit(1)] at line 369, 363, 374, 377 and 380. *)
Inductive exit_site :=
  | NoReportProduced
  | ReportUnreadable
  | SessionToolingMissing
  | SessionProcessFailed
  | UnexpectedFailure.

(** What interrupts straight-line execution: a raised exception, or
    [SystemExit] from [sys.exit(status)]. *)
Inductive signal :=
  | Raised (e : exception)
  | SystemExit (status : nat) (site : exit_site).

(** Computations over the monitor state that may be interrupted. *)
Definition M (A : Type) : Type := monitor → (signal + A) * monitor.

Global Instance M_ret : MRet M := λ A a st, (inr a, st).

Global Instance M_bind : MBind M := λ A B f m st,
  match m st with
  | (inl sig, st') => (inl sig, st')
  | (inr a, st') => f a st'
  end.

(** [raise e] *)
Definition raise {A} (e : exception) : M A := λ st, (inl (Raised e), st).

(** [sys.exit(status)] *)
Definition sys_exit {A} (status : nat) (site : exit_site) : M A :=
  λ st, (inl (SystemExit status site), st).

(** A state change that cannot fail. *)
Definition update (f : monitor → monitor) : M () := λ st, (inr (), f st).

(** Reading the state. *)
Definition gets {A} (f : monitor → A) : M A := λ st, (inr (f st), st).

(** The answer of a collaborator. *)
Definition call {A} (r : exception + A) : M A :=
  match r with
  | inl e => raise e
  | inr a => mret a
  end.

(** [try: body  except Exception as e: handler(e)]; a [SystemExit] is
    not an [Exception] and passes through. *)
Definition try_except {A} (body : M A) (handler : exception → M A) : M A :=
  λ st,
    match body st with
    | (inl (Raised e), st') => handler e st'
    | r => r
    end.

(** Python's [bool(s)] for an optional string: set and not empty. *)
Definition truthy (s : option string) : bool :=
  match s with
  | Some s => negb (String.eqb s "")
  | None => false
  end.

(** [write_github_step_summary(content)], lines 42-50. *)
Definition write_github_step_summary (w : world) (content : string) : M () :=
  if truthy (github_step_summary w) then
    call (step_summary_write w);;
    update (append_step_summary content);;
    update (append_step_summary (String "010"%char ""))
  else mret ().

(** ** [main], from the creation of the tracker on *)

(** Lines 340-369: the check for the recommendations file. *)
Definition check_report (w : world) : M () :=
  if report_exists w then
    file_size ← call (report_st_size w);
    update (log (LogReportFile (recommendations_file w)));;
    update (log (LogFileSize file_size));;
    try_except
      (content ← call (report_read_text w);
       update (log (LogContentLines (Str.line_count content)));;
       if truthy (github_step_summary w) then
         write_github_step_summary w content;;
         update (log LogStepSummaryWritten)
       else update (log LogLocalFile))
      (λ e,
         update (log (LogCouldNotRead (message_of e)));;
         sys_exit 1 ReportUnreadable)
  else
    update (log (LogNoReport (recommendations_file w)));;
    sys_exit 1 NoReportProduced.

(** Lines 319-338: the final summary. *)
Definition final_summary : M () :=
  update (log LogSeparator);;
  update (log LogCompletedOk);;
  update (log LogBlank);;
  update (log LogFinalResults);;
  used ← gets tools_used;
  (if decide (used = ∅) then mret ()
   else update (log (LogToolsUsed (merge_sort String.le (elements used)))));;
  update (log LogBlank);;
  update (log LogStatistics);;
  t ← gets tracker;
  update (log (LogSummary (get_summary t))).

(** Lines 236-369: the body of the outer [try]. *)
Definition try_body (w : world) : M () :=
  update (log LogRunningAnalysis);;
  call (connect w);;
  call (query w);;
  update (log LogMonitoring);;
  update (log LogRealTime);;
  update (set_reasoning_count 0);;
  update (receive_loop (receive_response w));;
  call (receive_response_end w);;
  final_summary;;
  check_report w.

(** Lines 371-380: the [except] clauses of the outer [try]. *)
Definition except_clauses (e : exception) : M () :=
  match class_of e with
  | CLINotFoundError =>
      update (log (LogCLINotFound (message_of e)));;
      update (log LogCLIHint);;
      sys_exit 1 SessionToolingMissing
  | ProcessError =>
      update (log (LogProcessError (message_of e)));;
      sys_exit 1 SessionProcessFailed
  | OtherException =>
      update (log (LogUnexpected (message_of e)));;
      sys_exit 1 UnexpectedFailure
  end.

(** Lines 213-384. *)
Definition main (w : world) : M () :=
  update (log LogInitializing);;
  update (log LogSeparator);;
  try_except (try_body w) except_clauses;;
  update (log LogBlank);;
  update (log LogCompletedAt);;
  update (log LogBlank).

(** The outcome of a run: [Success] when [main] returns, otherwise the
    site of the [sys.exit]. *)
Inductive Outcome :=
  | Success
  | Failure (site : exit_site)
  | Uncaught (e : exception).

(** One run of the program in the world [w]. *)
Definition run (w : world) : (signal + ()) * monitor := main w initial.

Definition outcome (w : world) : Outcome :=
  match (run w).1 with
  | inr _ => Success
  | inl (SystemExit _ site) => Failure site
  | inl (Raised e) => Uncaught e
  end.

(** The exit status of the process: 0 when [main] returns, the argument
    of [sys.exit] otherwise; the interpreter exits with 1 on an uncaught
    exception. *)
Definition exit_status (w : world) : nat :=
  match (run w).1 with
  | inr _ => 0
  | inl (SystemExit status _) => status
  | inl (Raised _) => 1
  end.

(** The state in which the run ends. *)
Definition final (w : world) : monitor := (run w).2.

(** ** Vocabulary of the properties *)

(** The collection a tool invocation is counted in: the branch that the
    chain of tests in [handle_tool_use] selects for a tool name. *)
Inductive Category :=
  | FileRead
  | FileWrite
  | CommandRun
  | Search
  | GenericTool.

Global Instance Category_eq_dec : EqDecision Category.
Proof. solve_decision. Defined.

Definition tool_category (tool_name : string) : Category :=
  if decide (tool_name = "Read") then FileRead
  else if decide (tool_name ∈ ["Write"; "MultiEdit"; "Edit"]) then FileWrite
  else if decide (tool_name = "Bash") then CommandRun
  else if decide (tool_name = "Grep") then Search
  else if decide (tool_name = "Glob") then Search
  else GenericTool.

(** The sequence of the tracker that counts a category; a generic tool
    has none. *)
Definition sequence_of (c : Category) (t : ProgressTracker) : list string :=
  match c with
  | FileRead => files_read t
  | FileWrite => files_written t
  | CommandRun => commands_run t
  | Search => searches_performed t
  | GenericTool => []
  end.

(** What one tool invocation does to the tracker, by category. *)
Definition record (tool_name : string) (input : gmap string string)
    (t : ProgressTracker) : ProgressTracker :=
  match tool_category tool_name with
  | FileRead => add_file_read (get input "file_path" "") t
  | FileWrite => add_file_written (get input "file_path" "") t
  | CommandRun => add_command (Str.take 100 (get input "command" "")) t
  | Search => add_search (get input "pattern" "") t
  | GenericTool => t
  end.

(** The events of a stream, in the order the loop visits them. *)
Definition blocks_of (messages : list message) : list block :=
  messages ≫= λ m,
    match m with
    | AssistantMessage content => content
    | OtherMessage => []
    end.

Definition has_category (c : Category) (b : block) : bool :=
  match b with
  | ToolUseBlock tool_name _ => bool_decide (tool_category tool_name = c)
  | _ => false
  end.

(** The number of tool invocations of category [c] among [blocks]. *)
Definition count_category (c : Category) (blocks : list block) : nat :=
  length (filter (λ b, has_category c b = true) blocks).

(** The tool names of the invocations among [blocks], in order. *)
Definition tool_names (blocks : list block) : list string :=
  blocks ≫= λ b,
    match b with
    | ToolUseBlock tool_name _ => [tool_name]
    | _ => []
    end.

(** A reasoning event with text left after stripping. *)
Definition is_reasoning (b : block) : bool :=
  match b with
  | TextBlock text => negb (String.eqb (Str.strip text) "")
  | _ => false
  end.

(** The number of non-empty reasoning events among [blocks]. *)
Definition count_reasoning (blocks : list block) : nat :=
  length (filter (λ b, is_reasoning b = true) blocks).

(** The number of reasoning lines logged so far. *)
Definition reasoning_lines (st : monitor) : nat :=
  length (filter (λ l, is_reasoning_line l = true) (output st)).

(** Processing changed the log by exactly one more reasoning line. *)
Definition displayed (st st' : monitor) : Prop :=
  ∃ l, is_reasoning_line l = true ∧ output st' = output st ++ [l].

(** [text] contains [keyword] as a substring, letter case ignored. *)
Definition contains_ci (keyword text : string) : Prop :=
  ∃ pre post, Str.lower text = pre +:+ keyword +:+ post.

(** [text] contains one of the nine keywords, letter case ignored. *)
Definition mentions_keyword (text : string) : Prop :=
  ∃ keyword, keyword ∈ keywords ∧ contains_ci keyword text.

(** ** Sample inputs *)

(** Scenario B: a Bash command of 150 characters, then a failed result. *)
Definition command_150 : string := Str.repeat "x"%char 150.

Definition scenario_B : list message :=
  [AssistantMessage
     [ToolUseBlock "Bash" {["command" := command_150]};
      ToolResultBlock (Some (Some true))]].

(** A session that connects and streams [messages] to the end, with a
    report file described by the last three arguments. *)
Definition session (messages : list message) (found : bool)
    (size : exception + N) (text : exception + string) : world :=
  mkWorld (inr ()) (inr ()) messages (inr ())
          "/github/workspace/AI_CONTEXT_RECOMMENDATIONS_20250101_000000.md"
          found size text None (inr ()).

(** A session whose connection step raises [e]. *)
Definition no_session (e : exception) (messages : list message) : world :=
  mkWorld (inl e) (inr ()) messages (inr ())
          "/github/workspace/AI_CONTEXT_RECOMMENDATIONS_20250101_000000.md"
          false (inl (mkException OtherException "stat")) 
          (inl (mkException OtherException "read")) None (inr ()).

(** Scenario A: one file read, then a successful result. *)
Definition scenario_A : list message :=
  [AssistantMessage
     [ToolUseBlock "Read" {["file_path" := "a.py"]};
      ToolResultBlock (Some (Some false))]].

(** The report exists but its bytes are not valid UTF-8. *)
Definition world_unreadable : world :=
  session scenario_A true (inr 3%N)
          (inl (mkException OtherException "'utf-8' codec can't decode byte")).

Definition world_report : world :=
  session scenario_A true (inr 12%N) (inr "# Report").

Definition world_no_report : world :=
  session scenario_A false (inl (mkException OtherException "stat"))
          (inl (mkException OtherException "read")).

(** Three reasoning texts without a keyword, in two messages. *)
Definition three_notes : list message :=
  [AssistantMessage [TextBlock "Let me look at the layout."; TextBlock " ok "];
   AssistantMessage [TextBlock "Next: the tests"]].

(** ** Vocabulary of the further properties *)

(** What a block adds to the sequence of category [c]: the parameter
    that the branch of its tool passes to the tracker. *)
Definition recorded (c : Category) (b : block) : list string :=
  match b with
  | ToolUseBlock tool_name input =>
      if decide (tool_category tool_name = c) then
        match c with
        | FileRead | FileWrite => [get input "file_path" ""]
        | CommandRun => [Str.take 100 (get input "command" "")]
        | Search => [get input "pattern" ""]
        | GenericTool => []
        end
      else []
  | _ => []
  end.

(** The line that the branch of a tool logs for an invocation. *)
Definition tool_line (tool_name : string) (input : gmap string string)
    : log_line :=
  if decide (tool_name = "Read") then LogReading (get input "file_path" "")
  else if decide (tool_name ∈ ["Write"; "MultiEdit"; "Edit"]) then
    LogWriting (get input "file_path" "")
  else if decide (tool_name = "Bash") then
    LogRunning (Str.take 100 (get input "command" ""))
  else if decide (tool_name = "Grep") then
    LogSearching (get input "pattern" "") (get input "path" ".")
  else if decide (tool_name = "Glob") then
    LogFinding (get input "pattern" "")
  else LogUsingTool tool_name.

(** The lines of the tool invocations among [blocks], in order. *)
Definition tool_lines (blocks : list block) : list log_line :=
  blocks ≫= λ b,
    match b with
    | ToolUseBlock tool_name input => [tool_line tool_name input]
    | _ => []
    end.

(** The lines that announce a tool invocation. *)
Definition is_tool_line (l : log_line) : bool :=
  match l with
  | LogReading _ | LogWriting _ | LogRunning _ | LogSearching _ _
  | LogFinding _ | LogUsingTool _ => true
  | _ => false
  end.

(** The lines that the loop can log. *)
Definition is_event_line (l : log_line) : bool :=
  is_tool_line l || is_reasoning_line l || bool_decide (l = LogToolFailed).

(** A tool result that the loop reports as failed. *)
Definition is_failure (b : block) : bool :=
  match b with
  | ToolResultBlock is_error => is_error_true is_error
  | _ => false
  end.

(** The text shown by a reasoning line. *)
Definition shown_text (l : log_line) : option string :=
  match l with
  | LogClaudeCut head => Some head
  | LogClaude text => Some text
  | _ => None
  end.

(** The state in which [main] enters the loop. *)
Definition loop_entry : monitor :=
  set_reasoning_count 0
    (log LogRealTime (log LogMonitoring (log LogRunningAnalysis
      (log LogSeparator (log LogInitializing initial))))).

(** The lines of the [except] clause that catches [e]. *)
Definition except_lines (e : exception) : list log_line :=
  match class_of e with
  | CLINotFoundError => [LogCLINotFound (message_of e); LogCLIHint]
  | ProcessError => [LogProcessError (message_of e)]
  | OtherException => [LogUnexpected (message_of e)]
  end.

(** The exit site of the [except] clause that catches [e]. *)
Definition except_site (e : exception) : exit_site :=
  match class_of e with
  | CLINotFoundError => SessionToolingMissing
  | ProcessError => SessionProcessFailed
  | OtherException => UnexpectedFailure
  end.

(** The conditions under which the report check lets [main] return. *)
Definition report_ok (w : world) : Prop :=
  report_exists w = true
  ∧ (∃ size, report_st_size w = inr size)
  ∧ (∃ content, report_read_text w = inr content)
  ∧ (truthy (github_step_summary w) = true → step_summary_write w = inr ()).

(** The conditions under which the stream is read to its end. *)
Definition streamed (w : world) : Prop :=
  connect w = inr () ∧ query w = inr () ∧ receive_response_end w = inr ().

(** ** Paths, as [pathlib] has them on POSIX *)

Module Pathlib.

(** A parsed path: its root, which is empty, "/" or "//", and its
    components. *)
Record Path := mkPath {
  root : string;
  parts : list string;
}.

Global Instance Path_eq_dec : EqDecision Path.
Proof. solve_decision. Defined.

(** [s.split("/")] *)
Fixpoint split_slash (s : string) : list string :=
  match s with
  | "" => [""]
  | String c s' =>
      if decide (c = "/"%char) then "" :: split_slash s'
      else match split_slash s' with
           | x :: xs => String c x :: xs
           | [] => [String c ""]
           end
  end.

(** ["/".join(parts)] *)
Fixpoint join_slash (parts : list string) : string :=
  match parts with
  | [] => ""
  | [x] => x
  | x :: xs => x +:+ String "/" (join_slash xs)
  end.

(** [posixpath.splitroot]: the root and the rest of [s]. *)
Definition splitroot (s : string) : string * string :=
  match s with
  | String "/" (String "/" (String "/" _) as rest) => ("/", rest)
  | String "/" (String "/" rest) => ("//", rest)
  | String "/" rest => ("/", rest)
  | _ => ("", s)
  end.

(** A component that the parser keeps: neither empty nor ".". *)
Definition kept (x : string) : bool :=
  negb (String.eqb x "") && negb (String.eqb x ".").

(** [Path(s)] *)
Definition parse (s : string) : Path :=
  let '(r, rel) := splitroot s in
  mkPath r (List.filter kept (split_slash rel)).

(** [str(p)] *)
Definition str (p : Path) : string :=
  let s := root p +:+ join_slash (parts p) in
  if decide (s = "") then "." else s.

(** [p / key] *)
Definition joinpath (p : Path) (key : string) : Path :=
  let k := parse key in
  if decide (root k = "") then mkPath (root p) (parts p ++ parts k) else k.

(** [p.name] *)
Definition name (p : Path) : string := default "" (last (parts p)).

(** [p.parent] *)
Definition parent (p : Path) : Path :=
  match parts p with
  | [] => p
  | _ => mkPath (root p) (removelast (parts p))
  end.

(** No character of [x] is a slash. *)
Fixpoint slashless (x : string) : bool :=
  match x with
  | "" => true
  | String c x' => negb (bool_decide (c = "/"%char)) && slashless x'
  end.

(** The paths that parsing produces. *)
Definition well_formed (p : Path) : Prop :=
  root p ∈ [""; "/"; "//"]
  ∧ Forall (λ x, kept x = true ∧ slashless x = true) (parts p).

End Pathlib.

(** ** Upper case *)

Module Upper.

(** [str.upper] on one character below U+0100, as the code points of
    the result: a-z and the lower case letters U+00E0..U+00FE (U+00F7,
    the division sign, is not a letter) move down by 32; the sharp s
    becomes "SS"; the micro sign and y with diaeresis leave the range. *)
Definition upper_char (c : ascii) : list N :=
  let n := N_of_ascii c in
  if ((97 <=? n) && (n <=? 122)
      || (224 <=? n) && (n <=? 254) && negb (n =? 247))%N
  then [(n - 32)%N]
  else if (n =? 223)%N then [83%N; 83%N]
  else if (n =? 181)%N then [924%N]
  else if (n =? 255)%N then [376%N]
  else [n].

(** [s.upper()], as code points *)
Fixpoint upper (s : string) : list N :=
  match s with
  | "" => []
  | String c s' => upper_char c ++ upper s'
  end.

(** The code points of [s]. *)
Fixpoint code_points (s : string) : list N :=
  match s with
  | "" => []
  | String c s' => N_of_ascii c :: code_points s'
  end.

End Upper.

(** ** The start of [main], lines 84-211 *)

(** What the process finds when it starts: its environment, the clock
    reading formatted by [strftime], the directory of [entrypoint.py],
    the file system as [exists] and [read_text] see it, the result of
    [str.format] on the optimizer prompt (template, recommendations
    file name, context file), and the answers of the later session. *)
Record host := mkHost {
  environ : gmap string string;
  timestamp : string;
  module_dir : Pathlib.Path;
  path_exists : Pathlib.Path → bool;
  read_text : Pathlib.Path → exception + string;
  format_prompt : string → string → string → exception + string;
  sdk : world;
}.

(** One constructor per [log(...)] call of lines 98-211. *)
Inductive startup_line :=
  | StartBanner                         (* => Claude Context Optimizer - Python SDK *)
  | StartStarted                        (* => Started at: ... *)
  | StartWorkspace (dir : string)       (* => Workspace Directory: {workspace_dir} *)
  | StartBlank                          (* => the empty message *)
  | StartNoApiKey                       (* => Error: CLAUDE_API_KEY ... is required *)
  | StartNoContextFile                  (* => Error: CONTEXT_FILE ... is required *)
  | StartInvalidContextFile (upper : list N) (* => Error: Invalid CONTEXT_FILE '{context_file}' *)
  | StartPleaseSpecify                  (* => Please specify either 'CLAUDE.md' or 'AGENTS.md' *)
  | StartTarget (context_file : string) (* => Target context file: {context_file} *)
  | StartKeySet                         (* => Set ANTHROPIC_API_KEY for Claude CLI authentication *)
  | StartAddedPath (bin : string)       (* => Added local CLI to PATH: {local_bin_path} *)
  | StartNoBin                          (* => Warning: Could not find node_modules/.bin ... *)
  | StartExisting (found : string)      (* => Existing {existing_context_file} found ... *)
  | StartNoExisting (context_file : string) (* => No existing {context_file} found ... *)
  | StartNoSystemPrompt (path : string) (* => Error: System prompt file not found: {path} *)
  | StartNoOptimizerPrompt (path : string) (* => Error: Optimizer prompt file not found: {path} *)
  | StartLoaded                         (* => Successfully loaded prompt files *)
  | StartWillWrite (filename : string)  (* => Recommendations will be written to: {filename} *)
  | StartReadError (e : string).        (* => Error reading prompt files: {e} *)

(** The values that the start of [main] hands to the rest of it. *)
Record config := mkConfig {
  workspace_dir : Pathlib.Path;
  recommendations_filename : string;
  recommendations_path : Pathlib.Path;
  is_github_actions : bool;
  context_file : string;
  existing_context_file : option string;
  new_environ : gmap string string;
  system_prompt : string;
  optimizer_prompt : string;
}.

(** Computations that log start-up lines and may leave through
    [sys.exit(1)], which is the answer [None]. *)
Definition Startup (A : Type) : Type := list startup_line * option A.

Global Instance Startup_ret : MRet Startup := λ A a, ([], Some a).

Global Instance Startup_bind : MBind Startup := λ A B f m,
  match m with
  | (lines, Some a) => let '(lines', b) := f a in (lines ++ lines', b)
  | (lines, None) => (lines, None)
  end.

(** [log(line)] *)
Definition say (line : startup_line) : Startup () := ([line], Some ()).

(** [sys.exit(1)] *)
Definition leave {A} : Startup A := ([], None).

(** Lines 112-128: the context file named by CONTEXT_FILE. *)
Definition choose_context_file (value : string) : Startup string :=
  let upper := Upper.upper value in
  if decide (upper = []) then
    say StartNoContextFile;; say StartPleaseSpecify;; leave
  else if decide (upper ∈ [Upper.code_points "CLAUDE.MD";
                           Upper.code_points "AGENTS.MD"]) then
    mret (if decide (upper = Upper.code_points "CLAUDE.MD")
          then "CLAUDE.md" else "AGENTS.md")
  else
    say (StartInvalidContextFile upper);; say StartPleaseSpecify;; leave.

(** Lines 137-146: the first of the two locations of the CLI that
    exists. *)
Definition find_local_bin (h : host) : option string :=
  let possible_paths :=
    [Pathlib.parse "/agent/node_modules/.bin";
     Pathlib.joinpath (Pathlib.joinpath (module_dir h) "node_modules") ".bin"]
  in
  Pathlib.str <$> List.find (path_exists h) possible_paths.

(** Lines 131-153: the changes to [os.environ]. *)
Definition prepare_environ (h : host) (claude_api_key : string)
    : Startup (gmap string string) :=
  let env := <["ANTHROPIC_API_KEY" := claude_api_key]> (environ h) in
  say StartKeySet;;
  match find_local_bin h with
  | Some local_bin_path =>
      let current_path := default "" (env !! "PATH") in
      say (StartAddedPath local_bin_path);;
      mret (<["PATH" := local_bin_path +:+ String ":" current_path]> env)
  | None => say StartNoBin;; mret env
  end.

(** Lines 155-168: the context file already in the workspace. *)
Definition find_existing (h : host) (dir : Pathlib.Path)
    (context_file : string) : option string :=
  if path_exists h (Pathlib.joinpath dir context_file) then Some context_file
  else if path_exists h (Pathlib.joinpath dir (Str.lower context_file))
  then Some (Str.lower context_file)
  else None.

(** The path of a prompt file: in the package if it exists there,
    otherwise at the root of the file system (lines 173-182). *)
Definition prompt_path (h : host) (file : string) : Pathlib.Path :=
  let packaged :=
    Pathlib.joinpath (Pathlib.joinpath (module_dir h) "prompts") file in
  if path_exists h packaged then packaged
  else Pathlib.parse (String "/" file).

(** Lines 171-211: the two prompts. *)
Definition load_prompts (h : host) (filename context_file : string)
    : Startup (string * string) :=
  let system_prompt_path := prompt_path h "system-prompt.txt" in
  let optimizer_prompt_path := prompt_path h "optimizer-prompt.txt" in
  if negb (path_exists h system_prompt_path) then
    say (StartNoSystemPrompt (Pathlib.str system_prompt_path));; leave
  else if negb (path_exists h optimizer_prompt_path) then
    say (StartNoOptimizerPrompt (Pathlib.str optimizer_prompt_path));; leave
  else
    match read_text h system_prompt_path with
    | inl e => say (StartReadError (message_of e));; leave
    | inr system_prompt =>
        match read_text h optimizer_prompt_path with
        | inl e => say (StartReadError (message_of e));; leave
        | inr template =>
            match format_prompt h template filename context_file with
            | inl e => say (StartReadError (message_of e));; leave
            | inr optimizer_prompt =>
                say StartLoaded;;
                say (StartWillWrite filename);;
                mret (system_prompt, optimizer_prompt)
            end
        end
    end.

(** Lines 88-211. *)
Definition preflight (h : host) : Startup config :=
  let workspace_dir :=
    Pathlib.parse (default "/github/workspace" (environ h !! "WORKSPACE_DIR")) in
  let filename :=
    "AI_CONTEXT_RECOMMENDATIONS_" +:+ timestamp h +:+ ".md" in
  let recommendations_file := Pathlib.joinpath workspace_dir filename in
  let is_github_actions := truthy (environ h !! "GITHUB_STEP_SUMMARY") in
  say StartBanner;;
  say StartStarted;;
  say (StartWorkspace (Pathlib.str workspace_dir));;
  say StartBlank;;
  if negb (truthy (environ h !! "CLAUDE_API_KEY")) then
    say StartNoApiKey;; leave
  else
    let claude_api_key := default "" (environ h !! "CLAUDE_API_KEY") in
    context_file ← choose_context_file
                     (default "" (environ h !! "CONTEXT_FILE"));
    say (StartTarget context_file);;
    env ← prepare_environ h claude_api_key;
    let existing := find_existing h workspace_dir context_file in
    say (match existing with
         | Some found => StartExisting found
         | None => StartNoExisting context_file
         end);;
    prompts ← load_prompts h filename context_file;
    mret (mkConfig workspace_dir filename recommendations_file
                   is_github_actions context_file existing env
                   prompts.1 prompts.2).

(** The world of the session that follows a start with [cfg]: the
    answers of [sdk h], with the path of the report and the step
    summary variable as [main] computed them. *)
Definition session_world (h : host) (cfg : config) : world :=
  mkWorld (connect (sdk h)) (query (sdk h)) (receive_response (sdk h))
          (receive_response_end (sdk h))
          (Pathlib.str (recommendations_path cfg))
          (report_exists (sdk h)) (report_st_size (sdk h))
          (report_read_text (sdk h))
          (environ h !! "GITHUB_STEP_SUMMARY")
          (step_summary_write (sdk h)).

(** The exit status of the whole of [main]. *)
Definition main_exit_status (h : host) : nat :=
  match (preflight h).2 with
  | None => 1
  | Some cfg => exit_status (session_world h cfg)
  end.

(** ** [run.py], the local runner *)

(** What [run.py] finds: the version of the interpreter, the current
    directory, whether [entrypoint] can be imported, and the host that
    [entrypoint.main] will see, with the environment as it is before
    [run.py] changes it. *)
Record local_host := mkLocal {
  version_info : nat * nat;
  cwd : Pathlib.Path;
  import_ok : bool;
  agent_host : host;
}.

(** [sys.version_info < (3, 12)] *)
Definition version_too_old (v : nat * nat) : bool :=
  (v.1 <? 3)%nat || (v.1 =? 3)%nat && (v.2 <? 12)%nat.

(** The workspace that [run.py] chooses, lines 28-38. *)
Definition local_workspace (dir : Pathlib.Path) : Pathlib.Path :=
  if decide (Pathlib.name dir = "agent") then Pathlib.parent dir else dir.

(** The host that the agent sees when [run.py] starts it: the
    environment with WORKSPACE_DIR set, line 41. *)
Definition local_agent_host (l : local_host) : host :=
  let h := agent_host l in
  mkHost (<["WORKSPACE_DIR" := Pathlib.str (local_workspace (cwd l))]>
            (environ h))
         (timestamp h) (module_dir h) (path_exists h) (read_text h)
         (format_prompt h) (sdk h).

(** The exit status of [run.py]: the version check at import, the check
    of the API key, the import of [entrypoint], and the agent. *)
Definition local_exit_status (l : local_host) : nat :=
  if version_too_old (version_info l) then 1
  else if negb (truthy (environ (local_agent_host l) !! "CLAUDE_API_KEY"))
  then 1
  else if negb (import_ok l) then 1
  else main_exit_status (local_agent_host l).


(** A host in which the start succeeds: the prompts are in the package
    and CONTEXT_FILE is spelt in mixed case. *)
Definition sample_host : host :=
  mkHost {["CLAUDE_API_KEY" := "key"; "CONTEXT_FILE" := "Claude.md";
           "WORKSPACE_DIR" := "/tmp/elsewhere"]}
         "20250101_000000" (Pathlib.parse "/agent")
         (λ p, bool_decide
                 (p ∈ [Pathlib.parse "/agent/prompts/system-prompt.txt";
                       Pathlib.parse "/agent/prompts/optimizer-prompt.txt"]))
         (λ p, inr (Pathlib.str p)) (λ template _ _, inr template)
         world_report.

(** [run.py] started in the [agent] folder of a project. *)
Definition sample_local : local_host :=
  mkLocal (3, 12) (Pathlib.parse "/home/user/project/agent") true sample_host.

(** * Properties *)

(** ** Facts about the string operations *)

Module StrFacts.
Import Str.

Lemma app_nil (s : string) : "" +:+ s = s.
Proof. reflexivity. Qed.

Lemma app_cons (c : ascii) (s t : string) :
  String c s +:+ t = String c (s +:+ t).
Proof. reflexivity. Qed.

Lemma app_nil_r (s : string) : s +:+ "" = s.
Proof. induction s as [|c s IH]; [done|]. by rewrite app_cons, IH. Qed.

Lemma app_assoc (s t u : string) : (s +:+ t) +:+ u = s +:+ t +:+ u.
Proof.
  induction s as [|c s IH]; [done|]. by rewrite !app_cons, IH.
Qed.

Lemma length_app (s t : string) :
  String.length (s +:+ t) = String.length s + String.length t.
Proof.
  induction s as [|c s IH]; [done|]. rewrite app_cons. simpl. by rewrite IH.
Qed.

(** *** Slices *)

Lemma take_length (n : nat) (s : string) :
  String.length (take n s) = n `min` String.length s.
Proof.
  revert s. induction n as [|n IH]; intros [|c s]; simpl; auto.
Qed.

Lemma take_prefix (n : nat) (s : string) : ∃ rest, s = take n s +:+ rest.
Proof.
  revert s. induction n as [|n IH]; intros [|c s]; simpl; eauto.
  destruct (IH s) as [rest Hrest]. exists rest.
  by rewrite app_cons, <- Hrest.
Qed.

Lemma take_all (n : nat) (s : string) :
  take n s = s ↔ (String.length s ≤ n)%nat.
Proof.
  revert s. induction n as [|n IH]; intros [|c s]; simpl.
  - done.
  - split; [done | lia].
  - split; [lia | done].
  - rewrite <- Nat.succ_le_mono, <- IH. split; [by intros [= ->] | by intros ->].
Qed.

Lemma repeat_length (c : ascii) (n : nat) : String.length (repeat c n) = n.
Proof. induction n; simpl; auto. Qed.

(** *** Lower case *)

Lemma lower_app (s t : string) : lower (s +:+ t) = lower s +:+ lower t.
Proof.
  induction s as [|c s IH]; [done|].
  rewrite app_cons. simpl. by rewrite IH, app_cons.
Qed.

Lemma isspace_lower_char (c : ascii) : isspace (lower_char c) = isspace c.
Proof. by destruct c as [[] [] [] [] [] [] [] []]. Qed.

Lemma all_space_lower (s : string) : all_space (lower s) = all_space s.
Proof.
  induction s as [|c s IH]; [done|]. simpl.
  by rewrite isspace_lower_char, IH.
Qed.

(** *** Substrings *)

Lemma startswith_spec (k s : string) :
  startswith k s = true ↔ ∃ post, s = k +:+ post.
Proof.
  revert s. induction k as [|a k IH]; intros s; simpl.
  - split; [eauto | done].
  - destruct s as [|b s].
    + split; [done | by intros [post ?]].
    + case_decide as Hab.
      * subst b. rewrite IH. split.
        -- intros [post ->]. by exists post.
        -- intros [post Hpost]. rewrite app_cons in Hpost.
           injection Hpost as ->. by exists post.
      * split; [done|]. intros [post Hpost]. rewrite app_cons in Hpost.
        by injection Hpost as ? _.
Qed.

Lemma contains_spec (k s : string) :
  contains k s = true ↔ ∃ pre post, s = pre +:+ k +:+ post.
Proof.
  induction s as [|c s IH]; simpl.
  - rewrite orb_false_r, startswith_spec. split.
    + intros [post Hpost]. by exists "", post.
    + intros [[|b pre] [post Hpost]]; [by exists post | done].
  - rewrite orb_true_iff, startswith_spec, IH. split.
    + intros [[post Hpost] | (pre & post & ->)].
      * by exists "", post.
      * by exists (String c pre), post.
    + intros [[|b pre] [post Hpost]].
      * left. by exists post.
      * right. rewrite app_cons in Hpost. injection Hpost as -> ->.
        by exists pre, post.
Qed.

Lemma contains_empty (k : string) : k ≠ "" → contains k "" = false.
Proof. by destruct k. Qed.

Lemma contains_middle (k a s b : string) :
  contains k s = true → contains k (a +:+ s +:+ b) = true.
Proof.
  rewrite !contains_spec. intros (pre & post & ->).
  exists (a +:+ pre), (post +:+ b). by rewrite !app_assoc.
Qed.

(** *** White space around a substring *)

Lemma startswith_space (k ws : string) :
  k ≠ "" → no_space k = true → all_space ws = true →
  startswith k ws = false.
Proof.
  destruct k as [|a k], ws as [|b ws]; simpl; try done.
  intros _ [Ha _]%andb_true_iff [Hb _]%andb_true_iff.
  case_decide; [|done]. subst b. by rewrite Hb in Ha.
Qed.

Lemma contains_space (k ws : string) :
  k ≠ "" → no_space k = true → all_space ws = true →
  contains k ws = false.
Proof.
  intros Hk Hns. induction ws as [|b ws IH]; intros Hws.
  - by apply contains_empty.
  - change (contains k (String b ws))
      with (startswith k (String b ws) || contains k ws).
    rewrite startswith_space by done.
    simpl in Hws. apply andb_true_iff in Hws as [_ Hws]. by apply IH.
Qed.

Lemma contains_skip_left (k ws s : string) :
  k ≠ "" → no_space k = true → all_space ws = true →
  contains k (ws +:+ s) = contains k s.
Proof.
  intros Hk Hns. induction ws as [|b ws IH]; intros Hws; [done|].
  rewrite app_cons.
  change (contains k (String b (ws +:+ s)))
    with (startswith k (String b (ws +:+ s)) || contains k (ws +:+ s)).
  simpl in Hws. apply andb_true_iff in Hws as [Hb Hws].
  rewrite IH by done.
  destruct k as [|a k]; [done|]. simpl in Hns |- *.
  apply andb_true_iff in Hns as [Ha _].
  case_decide; [|done]. subst b. by rewrite Hb in Ha.
Qed.

Lemma startswith_skip_right (k s ws : string) :
  no_space k = true → all_space ws = true →
  startswith k (s +:+ ws) = startswith k s.
Proof.
  intros Hns Hws. revert s Hns.
  induction k as [|a k IH]; intros s Hns; [done|].
  simpl in Hns. apply andb_true_iff in Hns as [Ha Hns].
  destruct s as [|b s].
  - rewrite app_nil. destruct ws as [|b ws]; [done|]. simpl in Hws |- *.
    apply andb_true_iff in Hws as [Hb _].
    case_decide; [|done]. subst b. by rewrite Hb in Ha.
  - rewrite app_cons. simpl. case_decide; [|done]. by apply IH.
Qed.

Lemma contains_skip_right (k s ws : string) :
  k ≠ "" → no_space k = true → all_space ws = true →
  contains k (s +:+ ws) = contains k s.
Proof.
  intros Hk Hns Hws. induction s as [|b s IH].
  - rewrite app_nil, contains_space, contains_empty; done.
  - rewrite app_cons.
    change (startswith k (String b (s +:+ ws)) || contains k (s +:+ ws)
            = startswith k (String b s) || contains k s).
    rewrite IH. f_equal.
    rewrite <- app_cons. by apply startswith_skip_right.
Qed.

(** *** Stripping *)

Lemma lstrip_spec (s : string) :
  ∃ ws, all_space ws = true ∧ s = ws +:+ lstrip s.
Proof.
  induction s as [|c s (ws & Hws & IH)]; simpl.
  - by exists "".
  - destruct (isspace c) eqn:Hc.
    + exists (String c ws). simpl. rewrite Hc, Hws, app_cons.
      by rewrite <- IH.
    + by exists "".
Qed.

Lemma rstrip_spec (s : string) :
  ∃ ws, all_space ws = true ∧ s = rstrip s +:+ ws.
Proof.
  induction s as [|c s (ws & Hws & IH)]; simpl.
  - by exists "".
  - destruct (rstrip s) as [|d r] eqn:Hr.
    + destruct (isspace c) eqn:Hc.
      * exists (String c ws). simpl. rewrite Hc, Hws.
        rewrite app_nil in IH |- *. by rewrite <- IH.
      * exists ws. split; [done|]. rewrite app_cons. by rewrite <- IH.
    + exists ws. split; [done|]. rewrite app_cons. by rewrite <- IH.
Qed.

Lemma strip_spec (s : string) :
  ∃ ws1 ws2, all_space ws1 = true ∧ all_space ws2 = true
             ∧ s = ws1 +:+ strip s +:+ ws2.
Proof.
  destruct (lstrip_spec s) as (ws1 & H1 & Hl).
  destruct (rstrip_spec (lstrip s)) as (ws2 & H2 & Hr).
  exists ws1, ws2. unfold strip. by rewrite <- Hr, <- Hl.
Qed.

Lemma lstrip_all_space (s : string) : all_space s = true → lstrip s = "".
Proof.
  induction s as [|c s IH]; [done|]. simpl.
  intros [Hc Hs]%andb_true_iff. rewrite Hc. by apply IH.
Qed.

Lemma strip_all_space (s : string) : all_space s = true → strip s = "".
Proof. intros Hs. unfold strip. by rewrite lstrip_all_space. Qed.

(** Stripping and lowering do not change whether a word without white
    space occurs. *)
Lemma contains_lower_strip (k s : string) :
  k ≠ "" → no_space k = true →
  contains k (lower (strip s)) = contains k (lower s).
Proof.
  intros Hk Hns.
  destruct (strip_spec s) as (ws1 & ws2 & H1 & H2 & Hs).
  rewrite Hs at 2. rewrite !lower_app.
  rewrite contains_skip_left, contains_skip_right;
    by rewrite ?all_space_lower.
Qed.

End StrFacts.

(** ** One event *)

Section one_event.
Implicit Types (st : monitor) (b : block) (c : Category).
Implicit Types (tool_name text : string) (input : gmap string string).

Lemma handle_tool_use_tracker tool_name input st :
  tracker (handle_tool_use tool_name input st)
  = record tool_name input (tracker st).
Proof.
  unfold handle_tool_use, record, tool_category.
  repeat case_decide; reflexivity.
Qed.

Lemma handle_tool_use_tools_used tool_name input st :
  tools_used (handle_tool_use tool_name input st)
  = {[tool_name]} ∪ tools_used st.
Proof. unfold handle_tool_use. repeat case_decide; reflexivity. Qed.

Lemma handle_tool_use_count tool_name input st :
  claude_reasoning_count (handle_tool_use tool_name input st)
  = claude_reasoning_count st.
Proof. unfold handle_tool_use. repeat case_decide; reflexivity. Qed.

Lemma handle_tool_use_output tool_name input st :
  ∃ l, is_reasoning_line l = false
       ∧ output (handle_tool_use tool_name input st) = output st ++ [l].
Proof.
  unfold handle_tool_use.
  repeat case_decide; simpl; eexists; (split; [|reflexivity]); reflexivity.
Qed.

Lemma handle_text_stats text st :
  tracker (handle_text text st) = tracker st
  ∧ tools_used (handle_text text st) = tools_used st
  ∧ claude_reasoning_count (handle_text text st)
    = claude_reasoning_count st + 1.
Proof. unfold handle_text. by repeat case_match. Qed.

(** The line that [handle_text] logs when it logs one. *)
Lemma handle_text_output text st :
  ∃ l, is_reasoning_line l = true
       ∧ output (handle_text text st)
         = if ((claude_reasoning_count st + 1) `mod` 2 =? 0)%nat
              || any_keyword text
           then output st ++ [l] else output st.
Proof.
  unfold handle_text. simpl.
  destruct (100 <? String.length text)%nat.
  - exists (LogClaudeCut (Str.take 100 text)). split; [done|].
    by case_match.
  - exists (LogClaude text). split; [done|]. by case_match.
Qed.

Lemma handle_block_tracker b st :
  tracker (handle_block st b)
  = match b with
    | ToolUseBlock tool_name input => record tool_name input (tracker st)
    | _ => tracker st
    end.
Proof.
  destruct b as [tool_name input|is_error|text|]; simpl.
  - apply handle_tool_use_tracker.
  - unfold handle_tool_result. by case_match.
  - case_decide; [done|]. apply handle_text_stats.
  - done.
Qed.

Lemma handle_block_tools_used b st :
  tools_used (handle_block st b)
  = list_to_set (tool_names [b]) ∪ tools_used st.
Proof.
  destruct b as [tool_name input|is_error|text|]; simpl;
    rewrite ?(left_id_L ∅ (∪)), ?(right_id_L ∅ (∪)).
  - apply handle_tool_use_tools_used.
  - unfold handle_tool_result. by case_match.
  - case_decide; [done|]. apply handle_text_stats.
  - done.
Qed.

Lemma handle_block_count b st :
  claude_reasoning_count (handle_block st b)
  = claude_reasoning_count st + (if is_reasoning b then 1 else 0).
Proof.
  destruct b as [tool_name input|is_error|text|]; simpl.
  - rewrite handle_tool_use_count. lia.
  - unfold handle_tool_result. case_match; simpl; lia.
  - case_decide as Hs.
    + rewrite Hs. simpl. lia.
    + apply String.eqb_neq in Hs as ->. simpl. apply handle_text_stats.
  - lia.
Qed.

Lemma record_length c tool_name input t :
  c ≠ GenericTool →
  length (sequence_of c (record tool_name input t))
  = length (sequence_of c t)
    + (if bool_decide (tool_category tool_name = c) then 1 else 0).
Proof.
  intros Hc. unfold record.
  destruct (tool_category tool_name), c; simpl;
    rewrite ?length_app; simpl; try lia; done.
Qed.

Lemma handle_block_length c b st :
  c ≠ GenericTool →
  length (sequence_of c (tracker (handle_block st b)))
  = length (sequence_of c (tracker st))
    + (if has_category c b then 1 else 0).
Proof.
  intros Hc. rewrite handle_block_tracker.
  destruct b; simpl; [by apply record_length | lia..].
Qed.

End one_event.

(** ** A stream of events *)

Section stream.
Implicit Types (st : monitor) (b : block) (bs : list block).
Implicit Types (ms : list message) (c : Category).

Lemma blocks_of_cons (m : message) ms :
  blocks_of (m :: ms)
  = match m with
    | AssistantMessage content => content
    | OtherMessage => []
    end ++ blocks_of ms.
Proof. reflexivity. Qed.

(** The two nested loops visit the blocks of [blocks_of] in order. *)
Lemma receive_loop_blocks ms st :
  receive_loop ms st = foldl handle_block st (blocks_of ms).
Proof.
  unfold receive_loop. revert st.
  induction ms as [|m ms IH]; intros st; [done|].
  rewrite blocks_of_cons, foldl_app. simpl. rewrite IH.
  by destruct m.
Qed.

Lemma count_category_cons c b bs :
  count_category c (b :: bs)
  = (if has_category c b then 1 else 0) + count_category c bs.
Proof.
  unfold count_category. rewrite filter_cons.
  case_decide as Hb.
  - by rewrite Hb.
  - by apply not_true_is_false in Hb as ->.
Qed.

Lemma count_reasoning_cons b bs :
  count_reasoning (b :: bs)
  = (if is_reasoning b then 1 else 0) + count_reasoning bs.
Proof.
  unfold count_reasoning. rewrite filter_cons.
  case_decide as Hb.
  - by rewrite Hb.
  - by apply not_true_is_false in Hb as ->.
Qed.

Lemma foldl_length c bs st :
  c ≠ GenericTool →
  length (sequence_of c (tracker (foldl handle_block st bs)))
  = length (sequence_of c (tracker st)) + count_category c bs.
Proof.
  intros Hc. revert st. induction bs as [|b bs IH]; intros st; simpl.
  - unfold count_category. simpl. lia.
  - rewrite IH, handle_block_length, count_category_cons by done. lia.
Qed.

Lemma tool_names_cons b bs :
  tool_names (b :: bs) = tool_names [b] ++ tool_names bs.
Proof. unfold tool_names. simpl. by rewrite app_nil_r. Qed.

Lemma foldl_tools_used bs st :
  tools_used (foldl handle_block st bs)
  = list_to_set (tool_names bs) ∪ tools_used st.
Proof.
  revert st. induction bs as [|b bs IH]; intros st.
  - simpl. by rewrite (left_id_L ∅ (∪)).
  - rewrite tool_names_cons, list_to_set_app_L.
    change (foldl handle_block st (b :: bs))
      with (foldl handle_block (handle_block st b) bs).
    rewrite IH, handle_block_tools_used, (assoc_L (∪)).
    f_equal. apply (comm_L (∪)).
Qed.

Lemma foldl_count bs st :
  claude_reasoning_count (foldl handle_block st bs)
  = claude_reasoning_count st + count_reasoning bs.
Proof.
  revert st. induction bs as [|b bs IH]; intros st; simpl.
  - unfold count_reasoning. simpl. lia.
  - rewrite IH, handle_block_count, count_reasoning_cons. lia.
Qed.

End stream.

(** ** Tool invocations and the statistics *)

Lemma tool_category_table (tool_name : string) :
  (tool_category tool_name = FileRead ↔ tool_name = "Read")
  ∧ (tool_category tool_name = FileWrite
     ↔ tool_name ∈ ["Write"; "MultiEdit"; "Edit"])
  ∧ (tool_category tool_name = CommandRun ↔ tool_name = "Bash")
  ∧ (tool_category tool_name = Search ↔ tool_name ∈ ["Grep"; "Glob"])
  ∧ (tool_category tool_name = GenericTool
     ↔ tool_name ∉ ["Read"; "Write"; "MultiEdit"; "Edit"; "Bash"; "Grep";
                    "Glob"]).
Proof.
  unfold tool_category.
  repeat case_decide; subst; repeat split; intros; try done;
    repeat match goal with
      | H : _ ∈ _ :: _ |- _ => apply elem_of_cons in H as [?|?]; subst
      | H : _ ∈ [] |- _ => by apply elem_of_nil in H
      | H : _ ∉ _ :: _ |- _ => apply not_elem_of_cons in H as [? ?]
      | |- _ ∉ _ :: _ => apply not_elem_of_cons; split
      | |- _ ∉ [] => apply not_elem_of_nil
      | |- ?x ∈ ?x :: _ => apply elem_of_cons; by left
      | |- _ ∈ _ :: _ => apply elem_of_cons; right
      end; try done.
Qed.

(** C1, against the claim as stated: in scenario B the command has 150
    characters, and after the run [commands_run] holds its first 100
    characters only, not the full command. *)
Lemma scenario_B_command_cut :
  commands_run (tracker (receive_loop scenario_B initial))
  = [Str.repeat "x"%char 100]
  ∧ commands_run (tracker (receive_loop scenario_B initial)) ≠ [command_150].
Proof.
  assert (commands_run (tracker (receive_loop scenario_B initial))
          = [Str.repeat "x"%char 100]) as E by (by vm_compute).
  split; [exact E|]. rewrite E. intros H.
  apply (f_equal (fmap String.length)) in H.
  vm_compute in H. discriminate H.
Qed.

(** C1, as the code has it: for a Bash invocation the first 100
    characters of the [command] parameter (the empty string when it is
    absent) are appended to [commands_run], and the same cut string is
    the one shown in the displayed line, before its ellipsis.  The cut
    string is a prefix of the command, of length [min 100 (len command)],
    and it is the whole command exactly when that has at most 100
    characters. *)
Theorem bash_command_recorded_cut (st : monitor) (input : gmap string string) :
  let full := get input "command" "" in
  let command := Str.take 100 full in
  let st' := handle_block st (ToolUseBlock "Bash" input) in
  commands_run (tracker st') = commands_run (tracker st) ++ [command]
  ∧ output st' = output st ++ [LogRunning command]
  ∧ String.length command = 100 `min` String.length full
  ∧ (∃ rest, full = command +:+ rest)
  ∧ (command = full ↔ (String.length full ≤ 100)%nat).
Proof.
  intros full command st'. repeat split.
  - apply StrFacts.take_length.
  - apply StrFacts.take_prefix.
  - apply StrFacts.take_all.
  - apply StrFacts.take_all.
Qed.

(** C2: after any finite sequence of events processed from a state with
    a new tracker, the lengths of [files_read], [files_written],
    [commands_run] and [searches_performed] are the numbers of tool
    invocations of category FileRead (tool "Read"), FileWrite ("Write",
    "MultiEdit", "Edit"), CommandRun ("Bash") and Search ("Grep",
    "Glob"). *)
Theorem counting_invariant (ms : list message) (st : monitor) :
  tracker st = new_tracker →
  let t := tracker (receive_loop ms st) in
  let count c := count_category c (blocks_of ms) in
  length (files_read t) = count FileRead
  ∧ length (files_written t) = count FileWrite
  ∧ length (commands_run t) = count CommandRun
  ∧ length (searches_performed t) = count Search.
Proof.
  intros Hnew t count. subst t count. rewrite receive_loop_blocks.
  pose proof (λ c, foldl_length c (blocks_of ms) st) as H.
  rewrite Hnew in H. simpl in H.
  repeat split; [apply (H FileRead) | apply (H FileWrite)
                | apply (H CommandRun) | apply (H Search)]; done.
Qed.

Lemma counting_invariant_witness :
  tracker initial = new_tracker
  ∧ length (files_read (tracker (receive_loop scenario_A initial))) = 1
  ∧ length (commands_run (tracker (receive_loop scenario_A initial))) = 0.
Proof.
  split; [reflexivity|].
  destruct (counting_invariant scenario_A initial eq_refl)
    as (Hr & _ & Hc & _).
  split; [exact Hr | exact Hc].
Defined.

(** C5: after any finite sequence of events processed from a state with
    no tool recorded, [tools_used] is the set of the tool names of all
    tool invocations, whatever their category; so two sequences in which
    the same names occur, in any order and any number of times, give the
    same set. *)
Theorem tools_used_distinct_names (ms : list message) (st : monitor) :
  tools_used st = ∅ →
  tools_used (receive_loop ms st) = list_to_set (tool_names (blocks_of ms))
  ∧ (∀ tool_name,
       tool_name ∈ tools_used (receive_loop ms st)
       ↔ ∃ input, ToolUseBlock tool_name input ∈ blocks_of ms)
  ∧ (∀ ms',
       (∀ tool_name, tool_name ∈ tool_names (blocks_of ms)
                     ↔ tool_name ∈ tool_names (blocks_of ms')) →
       tools_used (receive_loop ms' st) = tools_used (receive_loop ms st)).
Proof.
  intros Hempty.
  assert (∀ ms0, tools_used (receive_loop ms0 st)
                 = list_to_set (tool_names (blocks_of ms0))) as Hset.
  { intros ms0. rewrite receive_loop_blocks, foldl_tools_used, Hempty.
    apply (right_id_L ∅ (∪)). }
  split; [apply Hset|]. split.
  - intros tool_name. rewrite Hset, elem_of_list_to_set.
    unfold tool_names. rewrite list_elem_of_bind. split.
    + intros ([n input| | |] & Hn & Hb); simpl in Hn;
        try by apply elem_of_nil in Hn.
      apply list_elem_of_singleton in Hn as ->. by exists input.
    + intros [input Hb]. exists (ToolUseBlock tool_name input).
      split; [apply list_elem_of_singleton; reflexivity | exact Hb].
  - intros ms' Hsame. rewrite !Hset. apply set_eq. intros tool_name.
    by rewrite !elem_of_list_to_set.
Qed.

Lemma tools_used_distinct_names_witness :
  tools_used initial = ∅
  ∧ tools_used (receive_loop scenario_A initial) = {["Read"]}
  ∧ tools_used (receive_loop (scenario_A ++ scenario_A) initial)
    = tools_used (receive_loop scenario_A initial).
Proof.
  split; [reflexivity|].
  destruct (tools_used_distinct_names scenario_A initial eq_refl)
    as (Hset & _ & Hsame).
  split.
  - rewrite Hset. simpl. apply (right_id_L ∅ (∪)).
  - apply Hsame. intros tool_name. simpl.
    rewrite !elem_of_cons. tauto.
Defined.

(** C9: a tool invocation whose tool name is none of the seven names of
    the table is a generic tool: processing it adds the name to
    [tools_used] and leaves [files_read], [files_written],
    [commands_run] and [searches_performed] as they were. *)
Theorem unrecognized_tool_frame (st : monitor) (tool_name : string)
    (input : gmap string string) :
  tool_name ∉ ["Read"; "Write"; "MultiEdit"; "Edit"; "Bash"; "Grep"; "Glob"] →
  let st' := handle_block st (ToolUseBlock tool_name input) in
  tool_category tool_name = GenericTool
  ∧ tools_used st' = {[tool_name]} ∪ tools_used st
  ∧ files_read (tracker st') = files_read (tracker st)
  ∧ files_written (tracker st') = files_written (tracker st)
  ∧ commands_run (tracker st') = commands_run (tracker st)
  ∧ searches_performed (tracker st') = searches_performed (tracker st)
  ∧ output st' = output st ++ [LogUsingTool tool_name].
Proof.
  intros Hnot st'.
  assert (tool_category tool_name = GenericTool) as Hcat
    by by apply tool_category_table.
  assert (tracker st' = tracker st) as Htracker.
  { subst st'. simpl. rewrite handle_tool_use_tracker.
    unfold record. by rewrite Hcat. }
  split; [exact Hcat|]. split; [apply handle_tool_use_tools_used|].
  rewrite Htracker. repeat split.
  subst st'. simpl. unfold handle_tool_use.
  unfold tool_category in Hcat. by repeat case_decide.
Qed.

Lemma unrecognized_tool_frame_witness :
  ("TodoWrite" ∉ ["Read"; "Write"; "MultiEdit"; "Edit"; "Bash"; "Grep"; "Glob"])
  ∧ tools_used (handle_block initial (ToolUseBlock "TodoWrite" ∅))
    = {["TodoWrite"]} ∪ ∅
  ∧ commands_run (tracker (handle_block initial (ToolUseBlock "TodoWrite" ∅)))
    = [].
Proof.
  assert ("TodoWrite" ∉ ["Read"; "Write"; "MultiEdit"; "Edit"; "Bash";
                         "Grep"; "Glob"]) as Hnot
    by (rewrite !not_elem_of_cons; repeat split; (done || apply not_elem_of_nil)).
  split; [exact Hnot|].
  destruct (unrecognized_tool_frame initial "TodoWrite" ∅ Hnot)
    as (_ & Hused & _ & _ & Hcmd & _).
  split; [exact Hused | exact Hcmd].
Defined.

(** ** Tool results *)

(** C7: a tool result whose [is_error] is true logs the failure line and
    changes nothing else; one whose [is_error] is false leaves the whole
    state, log and statistics, as it was. *)
Theorem tool_result_effect (st : monitor) :
  (let st' := handle_block st (ToolResultBlock (Some (Some true))) in
   output st' = output st ++ [LogToolFailed]
   ∧ tracker st' = tracker st
   ∧ tools_used st' = tools_used st
   ∧ claude_reasoning_count st' = claude_reasoning_count st)
  ∧ handle_block st (ToolResultBlock (Some (Some false))) = st.
Proof. repeat split. Qed.

(** C10: a tool result without an [is_error] attribute logs nothing and
    leaves the whole state as it was, like a successful result; the
    [hasattr] test keeps the attribute from being read. *)
Theorem tool_result_without_is_error (st : monitor) :
  is_error_true None = false
  ∧ handle_block st (ToolResultBlock None) = st
  ∧ handle_block st (ToolResultBlock None)
    = handle_block st (ToolResultBlock (Some (Some false))).
Proof. repeat split. Qed.

(** ** Reasoning text *)

(** C8: a reasoning text that is empty or all white space leaves the
    whole state as it was: no line, no statistics, no step of the
    reasoning count. *)
Theorem blank_reasoning_ignored (st : monitor) (text : string) :
  Str.all_space text = true →
  handle_block st (TextBlock text) = st.
Proof.
  intros Hblank. simpl. rewrite StrFacts.strip_all_space by done.
  by case_decide.
Qed.

Lemma blank_reasoning_ignored_witness :
  Str.all_space (String " " (String "009" (String "010" ""))) = true
  ∧ handle_block initial
      (TextBlock (String " " (String "009" (String "010" "")))) = initial.
Proof.
  split; [reflexivity|].
  apply (blank_reasoning_ignored initial); reflexivity.
Defined.

Lemma even_mod (n : nat) : n `mod` 2 = 0 ↔ Nat.Even n.
Proof.
  split.
  - intros H. exists (n `div` 2).
    pose proof (Nat.div_mod_eq n 2). lia.
  - intros [m ->]. rewrite Nat.mul_comm. apply Nat.Div0.mod_mul.
Qed.

Lemma half_step (c : nat) :
  c `div` 2 + (if (c + 1) `mod` 2 =? 0 then 1 else 0)%nat = (c + 1) `div` 2.
Proof.
  pose proof (Nat.div_mod_eq c 2).
  pose proof (Nat.mod_upper_bound c 2).
  pose proof (Nat.div_mod_eq (c + 1) 2).
  pose proof (Nat.mod_upper_bound (c + 1) 2).
  destruct ((c + 1) `mod` 2 =? 0)%nat eqn:E;
    [apply Nat.eqb_eq in E | apply Nat.eqb_neq in E]; lia.
Qed.

Lemma keywords_plain :
  Forall (λ keyword, keyword ≠ "" ∧ Str.no_space keyword = true) keywords.
Proof. unfold keywords. repeat constructor; done. Qed.

(** The test of the code, on the stripped text, is the occurrence of a
    keyword in the text of the event, letter case ignored. *)
Lemma any_keyword_strip (text : string) :
  any_keyword (Str.strip text) = true ↔ mentions_keyword text.
Proof.
  unfold any_keyword, mentions_keyword, contains_ci.
  rewrite existsb_exists. split.
  - intros (keyword & Hin%list_elem_of_In & Hc). exists keyword.
    split; [done|].
    destruct (proj1 (Forall_forall _ _) keywords_plain keyword Hin).
    rewrite StrFacts.contains_lower_strip in Hc by done.
    by apply StrFacts.contains_spec.
  - intros (keyword & Hin & Hc). exists keyword.
    split; [by apply list_elem_of_In|].
    destruct (proj1 (Forall_forall _ _) keywords_plain keyword Hin).
    rewrite StrFacts.contains_lower_strip by done.
    by apply StrFacts.contains_spec.
Qed.

Lemma any_keyword_nonempty (text : string) :
  any_keyword text = true → text ≠ "".
Proof. by intros H ->. Qed.

Lemma not_displayed_same (st st' : monitor) :
  output st' = output st → ¬ displayed st st'.
Proof.
  intros Hsame (l & _ & Hl). rewrite Hsame in Hl.
  apply (f_equal length) in Hl. rewrite length_app in Hl. simpl in Hl. lia.
Qed.

(** What a non-empty reasoning text does to the log. *)
Lemma handle_block_text (st : monitor) (text : string) :
  Str.strip text ≠ "" →
  let st' := handle_block st (TextBlock text) in
  let shown := ((claude_reasoning_count st + 1) `mod` 2 =? 0)%nat
               || any_keyword (Str.strip text) in
  (shown = true → displayed st st')
  ∧ (shown = false → output st' = output st).
Proof.
  intros Hne st' shown. subst st'. simpl. case_decide; [done|].
  destruct (handle_text_output (Str.strip text) st) as (l & Hl & Hout).
  fold shown in Hout. rewrite Hout. split; intros ->; [|done].
  by exists l.
Qed.

Lemma reasoning_lines_log (l : log_line) (st st' : monitor) :
  output st' = output st ++ [l] →
  reasoning_lines st'
  = reasoning_lines st + (if is_reasoning_line l then 1 else 0).
Proof.
  intros Hout. unfold reasoning_lines.
  rewrite Hout, filter_app, length_app, filter_cons.
  by destruct (is_reasoning_line l).
Qed.

Lemma handle_block_reasoning_lines (st : monitor) (b : block) :
  (∀ text, b = TextBlock text → ¬ mentions_keyword text) →
  reasoning_lines (handle_block st b) + claude_reasoning_count st `div` 2
  = reasoning_lines st + claude_reasoning_count (handle_block st b) `div` 2.
Proof.
  intros Hplain. rewrite handle_block_count.
  destruct b as [tool_name input|is_error|text|];
    cbn [handle_block is_reasoning].
  - destruct (handle_tool_use_output tool_name input st) as (l & Hl & Hout).
    rewrite (reasoning_lines_log l st _ Hout), Hl, !Nat.add_0_r. done.
  - unfold handle_tool_result. destruct (is_error_true is_error).
    + rewrite (reasoning_lines_log LogToolFailed st (log LogToolFailed st)
                 eq_refl).
      cbn [is_reasoning_line]. by rewrite !Nat.add_0_r.
    + by rewrite !Nat.add_0_r.
  - case_decide as Hs.
    + rewrite Hs. cbn [String.eqb negb]. by rewrite !Nat.add_0_r.
    + pose proof Hs as ->%String.eqb_neq. cbn [negb].
      assert (any_keyword (Str.strip text) = false) as Hk.
      { apply not_true_is_false. rewrite any_keyword_strip. by apply Hplain. }
      destruct (handle_text_output (Str.strip text) st) as (l & Hl & Hout).
      rewrite Hk, orb_false_r in Hout. rewrite <- half_step.
      destruct ((claude_reasoning_count st + 1) `mod` 2 =? 0)%nat.
      * rewrite (reasoning_lines_log l st _ Hout), Hl. lia.
      * unfold reasoning_lines. rewrite Hout. lia.
  - by rewrite !Nat.add_0_r.
Qed.

Lemma foldl_reasoning_lines (bs : list block) (st : monitor) :
  (∀ text, TextBlock text ∈ bs → ¬ mentions_keyword text) →
  reasoning_lines (foldl handle_block st bs)
  + claude_reasoning_count st `div` 2
  = reasoning_lines st
    + (claude_reasoning_count st + count_reasoning bs) `div` 2.
Proof.
  revert st. induction bs as [|b bs IH]; intros st Hplain.
  - unfold count_reasoning. simpl. by rewrite Nat.add_0_r.
  - change (foldl handle_block st (b :: bs))
      with (foldl handle_block (handle_block st b) bs).
    assert (∀ text, TextBlock text ∈ bs → ¬ mentions_keyword text) as Hbs.
    { intros text Hin. apply Hplain. by apply elem_of_cons; right. }
    assert (∀ text, b = TextBlock text → ¬ mentions_keyword text) as Hb.
    { intros text ->. apply Hplain. by apply elem_of_cons; left. }
    pose proof (IH (handle_block st b) Hbs) as H1.
    pose proof (handle_block_reasoning_lines st b Hb) as H2.
    rewrite count_reasoning_cons.
    rewrite handle_block_count in H1, H2.
    rewrite Nat.add_assoc. lia.
Qed.

(** C4: the reasoning count goes up by one for each non-empty reasoning
    event and for nothing else, so that it is the 1-indexed ordinal of
    the event; a non-empty reasoning event is displayed if and only if
    its ordinal is even or its text contains one of the nine keywords,
    letter case ignored.  Hence a stream started at count 0 in which no
    reasoning text contains a keyword displays [N / 2] of its [N]
    non-empty reasoning events, and a text containing "complete" in any
    letter case is displayed at every ordinal. *)
Theorem reasoning_display_rule :
  (∀ ms st,
     claude_reasoning_count (receive_loop ms st)
     = claude_reasoning_count st + count_reasoning (blocks_of ms))
  ∧ (∀ st text,
       Str.strip text ≠ "" →
       let st' := handle_block st (TextBlock text) in
       let ordinal := claude_reasoning_count st + 1 in
       claude_reasoning_count st' = ordinal
       ∧ (displayed st st' ↔ Nat.Even ordinal ∨ mentions_keyword text)
       ∧ (¬ displayed st st' → output st' = output st))
  ∧ (∀ ms st,
       claude_reasoning_count st = 0 →
       (∀ text, TextBlock text ∈ blocks_of ms → ¬ mentions_keyword text) →
       reasoning_lines (receive_loop ms st)
       = reasoning_lines st + count_reasoning (blocks_of ms) `div` 2)
  ∧ (∀ st pre word post,
       Str.lower word = "complete" →
       displayed st (handle_block st (TextBlock (pre +:+ word +:+ post)))).
Proof.
  split; [|split; [|split]].
  - intros ms st. rewrite receive_loop_blocks. apply foldl_count.
  - intros st text Hne st' ordinal.
    destruct (handle_block_text st text Hne) as [Hshown Hhidden].
    fold st' in Hshown, Hhidden. fold ordinal in Hshown, Hhidden.
    split.
    { subst st'. rewrite handle_block_count. simpl.
      by apply String.eqb_neq in Hne as ->. }
    assert ((ordinal `mod` 2 =? 0)%nat || any_keyword (Str.strip text) = true
            ↔ Nat.Even ordinal ∨ mentions_keyword text) as Hrule.
    { by rewrite orb_true_iff, Nat.eqb_eq, even_mod, any_keyword_strip. }
    destruct ((ordinal `mod` 2 =? 0)%nat || any_keyword (Str.strip text))
      eqn:Hcond.
    + split; [|by intros []; apply Hshown].
      split; [by intros _; apply Hrule | by intros _; apply Hshown].
    + split; [|by intros _; apply Hhidden].
      split.
      * intros Hd. by destruct (not_displayed_same st st' (Hhidden eq_refl)).
      * intros Hr. apply Hrule in Hr. discriminate Hr.
  - intros ms st Hzero Hplain. rewrite receive_loop_blocks.
    pose proof (foldl_reasoning_lines (blocks_of ms) st Hplain) as H.
    rewrite Hzero, Nat.add_0_l in H.
    change (0 `div` 2) with 0 in H. by rewrite Nat.add_0_r in H.
  - intros st pre word post Hword.
    assert (mentions_keyword (pre +:+ word +:+ post)) as Hm.
    { exists "complete". split.
      - unfold keywords. rewrite !elem_of_cons. tauto.
      - exists (Str.lower pre), (Str.lower post).
        by rewrite !StrFacts.lower_app, Hword. }
    apply any_keyword_strip in Hm.
    apply handle_block_text; [by apply any_keyword_nonempty|].
    rewrite Hm. apply orb_true_r.
Qed.

Lemma reasoning_display_rule_witness :
  Str.lower "COMPLETE" = "complete"
  ∧ displayed initial (handle_block initial (TextBlock "Task COMPLETE, done."))
  ∧ claude_reasoning_count initial = 0
  ∧ reasoning_lines (receive_loop three_notes initial) = 1.
Proof.
  destruct reasoning_display_rule as (_ & _ & Hhalf & Hcomplete).
  split; [reflexivity|]. split.
  - apply (Hcomplete initial "Task " "COMPLETE" ", done."). reflexivity.
  - split; [reflexivity|].
    apply (Hhalf three_notes initial); [reflexivity|].
    intros text Hin. rewrite <- any_keyword_strip.
    simpl in Hin. rewrite !elem_of_cons in Hin.
    destruct Hin as [H|[H|[H|H]]];
      [injection H as ->; by vm_compute..|by apply elem_of_nil in H].
Defined.

(** ** The run as a whole *)

(** Unfolds [main] down to the answers of the world. *)
Ltac run_main :=
  unfold outcome, exit_status, final, run, main, try_body, check_report,
    final_summary, write_github_step_summary, except_clauses, try_except,
    call, raise, sys_exit, update, gets;
  unfold mbind, mret, M_bind, M_ret.

(** The state in which [main] enters the loop. *)
Lemma loop_entry_fresh :
  let st0 := set_reasoning_count 0
               (log LogRealTime (log LogMonitoring (log LogRunningAnalysis
                 (log LogSeparator (log LogInitializing initial))))) in
  tracker st0 = new_tracker ∧ tools_used st0 = ∅
  ∧ claude_reasoning_count st0 = 0 ∧ reasoning_lines st0 = 0.
Proof. repeat split. Qed.

(** Once the session is connected and the task sent, the statistics at
    the end of the run are those the loop leaves, however the run ends. *)
Lemma final_statistics (w : world) :
  connect w = inr () → query w = inr () →
  let st0 := set_reasoning_count 0
               (log LogRealTime (log LogMonitoring (log LogRunningAnalysis
                 (log LogSeparator (log LogInitializing initial))))) in
  tracker (final w) = tracker (receive_loop (receive_response w) st0)
  ∧ tools_used (final w) = tools_used (receive_loop (receive_response w) st0).
Proof.
  intros Hconnect Hquery st0. run_main. rewrite Hconnect, Hquery. simpl.
  fold st0.
  destruct (receive_response_end w) as [e|[]]; simpl.
  { by destruct (class_of e). }
  case_decide; simpl.
  all: destruct (report_exists w); simpl; [|done].
  all: destruct (report_st_size w) as [e|size]; simpl;
    [by destruct (class_of e)|].
  all: destruct (report_read_text w) as [e|content]; simpl; [done|].
  all: destruct (truthy (github_step_summary w)); simpl; [|done].
  all: by destruct (step_summary_write w) as [e|[]].
Qed.

(** C6: when the connection step raises, the run ends with exit status
    1 and the loop is never entered: the tracker is new, no tool is
    recorded and the log holds the three opening lines and the lines of
    the matching [except] clause, whatever the stream would have held.
    A [CLINotFoundError] gives the outcome SessionToolingMissing and its
    own message, a [ProcessError] gives SessionProcessFailed and its own
    message. *)
Theorem connect_failure (w : world) (e : exception) :
  connect w = inl e →
  exit_status w = 1
  ∧ tracker (final w) = new_tracker
  ∧ tools_used (final w) = ∅
  ∧ claude_reasoning_count (final w) = 0
  ∧ output (final w)
    = [LogInitializing; LogSeparator; LogRunningAnalysis]
      ++ match class_of e with
         | CLINotFoundError => [LogCLINotFound (message_of e); LogCLIHint]
         | ProcessError => [LogProcessError (message_of e)]
         | OtherException => [LogUnexpected (message_of e)]
         end
  ∧ outcome w
    = Failure match class_of e with
              | CLINotFoundError => SessionToolingMissing
              | ProcessError => SessionProcessFailed
              | OtherException => UnexpectedFailure
              end.
Proof.
  intros Hconnect. run_main. rewrite Hconnect. simpl.
  destruct (class_of e); repeat split.
Qed.

Lemma connect_failure_witness :
  connect (no_session (mkException CLINotFoundError "claude") scenario_B)
  = inl (mkException CLINotFoundError "claude")
  ∧ exit_status (no_session (mkException CLINotFoundError "claude") scenario_B)
    = 1
  ∧ outcome (no_session (mkException CLINotFoundError "claude") scenario_B)
    = Failure SessionToolingMissing.
Proof.
  split; [reflexivity|].
  destruct (connect_failure
              (no_session (mkException CLINotFoundError "claude") scenario_B)
              (mkException CLINotFoundError "claude") eq_refl)
    as (Hexit & _ & _ & _ & _ & Hout).
  split; [exact Hexit | exact Hout].
Defined.

(** C3, against the claim as stated: the stream ends normally and the
    report file exists, but reading it raises; the run ends with exit
    status 1, not with success. *)
Lemma unreadable_report_fails :
  receive_response_end world_unreadable = inr ()
  ∧ report_exists world_unreadable = true
  ∧ outcome world_unreadable = Failure ReportUnreadable
  ∧ outcome world_unreadable ≠ Success
  ∧ exit_status world_unreadable = 1.
Proof. repeat split. by vm_compute. Qed.

(** C3, as the code has it: when the session connects and the stream
    ends normally, a missing report file gives the outcome
    NoReportProduced and exit status 1; a report file that exists and
    whose size and text can be read (and, when a step summary file is
    named, appended to it) gives Success and exit status 0; a report
    file that exists but whose text cannot be read gives exit status 1
    after the warning of line 361. *)
Theorem report_decides_outcome (w : world) :
  connect w = inr () → query w = inr () → receive_response_end w = inr () →
  (report_exists w = false →
   outcome w = Failure NoReportProduced ∧ exit_status w = 1)
  ∧ (∀ size content,
       report_exists w = true →
       report_st_size w = inr size →
       report_read_text w = inr content →
       (truthy (github_step_summary w) = true →
        step_summary_write w = inr ()) →
       outcome w = Success ∧ exit_status w = 0)
  ∧ (∀ size e,
       report_exists w = true →
       report_st_size w = inr size →
       report_read_text w = inl e →
       outcome w = Failure ReportUnreadable ∧ exit_status w = 1
       ∧ last (output (final w)) = Some (LogCouldNotRead (message_of e))).
Proof.
  intros Hconnect Hquery Hend. split; [|split].
  - intros Hmissing. run_main.
    rewrite Hconnect, Hquery, Hend, Hmissing. simpl.
    by case_decide.
  - intros size content Hfound Hsize Htext Hsummary. run_main.
    rewrite Hconnect, Hquery, Hend, Hfound, Hsize, Htext. simpl.
    destruct (truthy (github_step_summary w)).
    + rewrite Hsummary by done. simpl. by case_decide.
    + simpl. by case_decide.
  - intros size e Hfound Hsize Htext. run_main.
    rewrite Hconnect, Hquery, Hend, Hfound, Hsize, Htext. simpl.
    case_decide; simpl; repeat split; by rewrite last_snoc.
Qed.

Lemma report_decides_outcome_witness :
  (outcome world_no_report = Failure NoReportProduced
   ∧ exit_status world_no_report = 1)
  ∧ (outcome world_report = Success ∧ exit_status world_report = 0)
  ∧ outcome world_unreadable = Failure ReportUnreadable.
Proof.
  split; [|split].
  - apply (report_decides_outcome world_no_report); reflexivity.
  - apply (report_decides_outcome world_report eq_refl eq_refl eq_refl)
      with (size := 12%N) (content := "# Report");
      [reflexivity..|discriminate].
  - eapply (report_decides_outcome world_unreadable eq_refl eq_refl eq_refl);
      reflexivity.
Defined.

(** ** The statistics of a run *)

(** Once the session is connected and the task sent, the four lengths
    that the summary prints are the numbers of tool invocations of each
    category among the messages received, and [tools_used] is the set
    of their tool names, whether the stream then ends normally or not. *)
Corollary run_statistics (w : world) :
  connect w = inr () → query w = inr () →
  get_summary (tracker (final w))
  = [count_category FileRead (blocks_of (receive_response w));
     count_category FileWrite (blocks_of (receive_response w));
     count_category CommandRun (blocks_of (receive_response w));
     count_category Search (blocks_of (receive_response w))]
  ∧ tools_used (final w)
    = list_to_set (tool_names (blocks_of (receive_response w))).
Proof.
  intros Hconnect Hquery.
  destruct (final_statistics w Hconnect Hquery) as [-> ->].
  rewrite receive_loop_blocks. split.
  - unfold get_summary.
    pose proof (λ c, foldl_length c (blocks_of (receive_response w))) as H.
    rewrite (H FileRead), (H FileWrite), (H CommandRun), (H Search) by done.
    reflexivity.
  - rewrite foldl_tools_used. apply (right_id_L ∅ (∪)).
Qed.

(** * Further properties of the loop *)

Section loop_facts.
Implicit Types (st : monitor) (b : block) (bs : list block).
Implicit Types (ms : list message) (c : Category).

Lemma record_sequence c (tool_name : string) (input : gmap string string)
    (t : ProgressTracker) :
  c ≠ GenericTool →
  sequence_of c (record tool_name input t)
  = sequence_of c t ++ recorded c (ToolUseBlock tool_name input).
Proof.
  intros Hc. unfold record, recorded.
  destruct (tool_category tool_name) eqn:Hcat, c; try done;
    simpl; by rewrite ?app_nil_r.
Qed.

Lemma handle_block_sequence c b st :
  c ≠ GenericTool →
  sequence_of c (tracker (handle_block st b))
  = sequence_of c (tracker st) ++ recorded c b.
Proof.
  intros Hc. rewrite handle_block_tracker.
  destruct b; simpl; rewrite ?app_nil_r; try done.
  by apply record_sequence.
Qed.

Lemma foldl_sequence c bs st :
  c ≠ GenericTool →
  sequence_of c (tracker (foldl handle_block st bs))
  = sequence_of c (tracker st) ++ (bs ≫= recorded c).
Proof.
  intros Hc. revert st. induction bs as [|b bs IH]; intros st.
  - simpl. by rewrite app_nil_r.
  - change (foldl handle_block st (b :: bs))
      with (foldl handle_block (handle_block st b) bs).
    rewrite IH, handle_block_sequence by done.
    by rewrite <- (assoc_L (++)).
Qed.

Lemma handle_tool_use_line (tool_name : string)
    (input : gmap string string) st :
  output (handle_tool_use tool_name input st)
  = output st ++ [tool_line tool_name input].
Proof.
  unfold handle_tool_use, tool_line. repeat case_decide; reflexivity.
Qed.

Lemma tool_line_is_tool_line (tool_name : string)
    (input : gmap string string) :
  is_tool_line (tool_line tool_name input) = true.
Proof. unfold tool_line. repeat case_decide; reflexivity. Qed.

Lemma event_line_tool (l : log_line) :
  is_tool_line l = true → is_event_line l = true.
Proof. unfold is_event_line. by intros ->. Qed.

Lemma event_line_reasoning (l : log_line) :
  is_reasoning_line l = true → is_event_line l = true.
Proof. unfold is_event_line. intros ->. by rewrite orb_true_r. Qed.

(** The lines one block logs. *)
Lemma handle_block_lines b st :
  ∃ lines,
    output (handle_block st b) = output st ++ lines
    ∧ filter (λ l, is_tool_line l = true) lines = tool_lines [b]
    ∧ filter (λ l, l = LogToolFailed) lines
      = (if is_failure b then [LogToolFailed] else [])
    ∧ Forall (λ l, is_event_line l = true) lines.
Proof.
  destruct b as [tool_name input|is_error|text|]; simpl.
  - exists [tool_line tool_name input].
    split; [apply handle_tool_use_line|].
    pose proof (tool_line_is_tool_line tool_name input) as Hl.
    rewrite !filter_cons, !filter_nil.
    split; [by case_decide|]. split.
    + case_decide as H; [|done]. by rewrite H in Hl.
    + apply Forall_singleton. by apply event_line_tool.
  - unfold handle_tool_result. destruct (is_error_true is_error).
    + exists [LogToolFailed]. repeat split. by apply Forall_singleton.
    + exists []. rewrite app_nil_r. repeat split. constructor.
  - case_decide.
    { exists []. rewrite app_nil_r. repeat split. constructor. }
    destruct (handle_text_output (Str.strip text) st) as (l & Hl & Hout).
    destruct (_ || _) in Hout.
    + exists [l]. split; [done|].
      rewrite !filter_cons, !filter_nil.
      split; [by destruct l|]. split; [by destruct l|].
      apply Forall_singleton. by apply event_line_reasoning.
    + exists []. rewrite app_nil_r. repeat split; [done|constructor].
  - exists []. rewrite app_nil_r. repeat split. constructor.
Qed.

Lemma tool_lines_cons b bs : tool_lines (b :: bs) = tool_lines [b] ++ tool_lines bs.
Proof. unfold tool_lines. simpl. by rewrite app_nil_r. Qed.

(** The lines a sequence of blocks logs. *)
Lemma foldl_lines bs st :
  ∃ lines,
    output (foldl handle_block st bs) = output st ++ lines
    ∧ filter (λ l, is_tool_line l = true) lines = tool_lines bs
    ∧ length (filter (λ l, l = LogToolFailed) lines)
      = length (filter (λ b, is_failure b = true) bs)
    ∧ Forall (λ l, is_event_line l = true) lines.
Proof.
  revert st. induction bs as [|b bs IH]; intros st.
  - exists []. simpl. rewrite app_nil_r. repeat split. constructor.
  - change (foldl handle_block st (b :: bs))
      with (foldl handle_block (handle_block st b) bs).
    destruct (IH (handle_block st b)) as (ls & Hout & Htool & Hfail & Hev).
    destruct (handle_block_lines b st) as (l1 & Hout1 & Htool1 & Hfail1 & Hev1).
    exists (l1 ++ ls). rewrite Hout, Hout1, (assoc_L (++)).
    split; [done|]. rewrite !filter_app, Htool1, Htool, length_app, Hfail1.
    split; [by rewrite <- tool_lines_cons|].
    split; [|by apply Forall_app].
    rewrite Hfail, filter_cons. destruct (is_failure b); by case_decide.
Qed.

End loop_facts.

(** X1: from any state, the loop appends to each sequence of the
    tracker, in arrival order, one entry per tool invocation of its
    category: the [file_path] parameter for reads and writes, the first
    100 characters of [command] for Bash, the [pattern] for searches,
    each with the default of the code when the parameter is missing. *)
Theorem tracker_sequences_in_order (ms : list message) (st : monitor) :
  let t := tracker (receive_loop ms st) in
  files_read t
  = files_read (tracker st) ++ (blocks_of ms ≫= recorded FileRead)
  ∧ files_written t
    = files_written (tracker st) ++ (blocks_of ms ≫= recorded FileWrite)
  ∧ commands_run t
    = commands_run (tracker st) ++ (blocks_of ms ≫= recorded CommandRun)
  ∧ searches_performed t
    = searches_performed (tracker st) ++ (blocks_of ms ≫= recorded Search).
Proof.
  intros t. subst t. rewrite receive_loop_blocks.
  pose proof (λ c, foldl_sequence c (blocks_of ms) st) as H.
  repeat split; [apply (H FileRead) | apply (H FileWrite)
                | apply (H CommandRun) | apply (H Search)]; done.
Qed.

(** X2: the loop only ever appends.  From any state and for any stream,
    the four sequences of the tracker and the log before the loop are
    prefixes of those after it, every tool recorded before is still
    recorded, and the reasoning count does not go down. *)
Theorem loop_append_only (ms : list message) (st : monitor) :
  let st' := receive_loop ms st in
  files_read (tracker st) `prefix_of` files_read (tracker st')
  ∧ files_written (tracker st) `prefix_of` files_written (tracker st')
  ∧ commands_run (tracker st) `prefix_of` commands_run (tracker st')
  ∧ searches_performed (tracker st)
    `prefix_of` searches_performed (tracker st')
  ∧ output st `prefix_of` output st'
  ∧ tools_used st ⊆ tools_used st'
  ∧ (claude_reasoning_count st ≤ claude_reasoning_count st')%nat.
Proof.
  intros st'. subst st'. rewrite receive_loop_blocks.
  pose proof (λ c, foldl_sequence c (blocks_of ms) st) as H.
  split; [eexists; apply (H FileRead); done|].
  split; [eexists; apply (H FileWrite); done|].
  split; [eexists; apply (H CommandRun); done|].
  split; [eexists; apply (H Search); done|].
  split.
  { destruct (foldl_lines (blocks_of ms) st) as (ls & Hout & _).
    by exists ls. }
  split.
  - rewrite foldl_tools_used. apply union_subseteq_r.
  - rewrite foldl_count. lia.
Qed.

(** X3: no tool invocation and no failed result is suppressed.  The
    lines the loop adds to the log are event lines only; among them the
    lines announcing a tool are exactly those of the tool invocations of
    the stream, in arrival order, and there is one failure line for each
    result whose [is_error] is true. *)
Theorem every_action_displayed (ms : list message) (st : monitor) :
  ∃ lines,
    output (receive_loop ms st) = output st ++ lines
    ∧ Forall (λ l, is_event_line l = true) lines
    ∧ filter (λ l, is_tool_line l = true) lines = tool_lines (blocks_of ms)
    ∧ length (filter (λ l, l = LogToolFailed) lines)
      = length (filter (λ b, is_failure b = true) (blocks_of ms)).
Proof.
  rewrite receive_loop_blocks.
  destruct (foldl_lines (blocks_of ms) st) as (ls & Hout & Htool & Hfail & Hev).
  by exists ls.
Qed.

(** X4: a tool invocation that lacks the parameters the loop looks up
    is handled like one without parameters: the lookup falls back on
    its default instead of failing.  The invocation still counts: a
    read, a write, a command or a search without its parameter records
    the empty string, and a Grep without [path] is displayed with the
    path ".". *)
Theorem missing_parameters_default (st : monitor) (tool_name : string)
    (input : gmap string string) :
  input !! "file_path" = None → input !! "command" = None →
  input !! "pattern" = None → input !! "path" = None →
  handle_block st (ToolUseBlock tool_name input)
  = handle_block st (ToolUseBlock tool_name ∅)
  ∧ (∀ c, tool_category tool_name = c → c ≠ GenericTool →
          sequence_of c (tracker (handle_block st (ToolUseBlock tool_name input)))
          = sequence_of c (tracker st) ++ [""])
  ∧ (tool_name = "Grep" →
     output (handle_block st (ToolUseBlock tool_name input))
     = output st ++ [LogSearching "" "."]).
Proof.
  intros Hfile Hcommand Hpattern Hpath.
  assert (get input "file_path" "" = "" ∧ get input "command" "" = ""
          ∧ get input "pattern" "" = "" ∧ get input "path" "." = ".")
    as (Ef & Ec & Ep & Ed).
  { unfold get. by rewrite Hfile, Hcommand, Hpattern, Hpath. }
  split; [|split].
  - simpl. unfold handle_tool_use. rewrite Ef, Ec, Ep, Ed.
    by repeat case_decide.
  - intros c Hcat Hc. rewrite handle_block_sequence by done.
    unfold recorded. rewrite Hcat, Ef, Ec, Ep.
    case_decide; [|done]. by destruct c.
  - intros ->. cbn [handle_block]. rewrite handle_tool_use_line.
    unfold tool_line. simpl. by rewrite Ep, Ed.
Qed.

Lemma missing_parameters_default_witness :
  files_read
    (tracker (handle_block initial (ToolUseBlock "Read" {["limit" := "10"]})))
  = [""].
Proof.
  assert (∀ k, k ≠ "limit" →
               ({["limit" := "10"]} : gmap string string) !! k = None) as H
    by (intros k Hk; by apply lookup_singleton_ne).
  destruct (missing_parameters_default initial "Read" {["limit" := "10"]})
    as (_ & Hseq & _); [by apply H..|].
  by apply (Hseq FileRead).
Defined.

(** X5: a reasoning line never shows more than 100 characters.  When a
    reasoning event is displayed, the text shown is the stripped text
    itself if that has at most 100 characters (logged without an
    ellipsis), and otherwise its first 100 characters (logged with
    one). *)
Theorem reasoning_line_bounded (st : monitor) (text : string) (l : log_line) :
  output (handle_block st (TextBlock text)) = output st ++ [l] →
  (String.length (Str.strip text) ≤ 100)%nat ∧ l = LogClaude (Str.strip text)
  ∨ (100 < String.length (Str.strip text))%nat
    ∧ l = LogClaudeCut (Str.take 100 (Str.strip text))
    ∧ String.length (Str.take 100 (Str.strip text)) = 100.
Proof.
  cbn [handle_block]. case_decide as Hs.
  { intros H. apply (f_equal length) in H.
    rewrite length_app in H. simpl in H. lia. }
  unfold handle_text.
  destruct (_ || _).
  - destruct (100 <? String.length (Str.strip text))%nat eqn:Hlen;
      unfold log, set_reasoning_count; cbn [output];
      intros [= <-]%(inj (app (output st))).
    + apply Nat.ltb_lt in Hlen. right. split; [done|]. split; [done|].
      rewrite StrFacts.take_length. lia.
    + apply Nat.ltb_ge in Hlen. by left.
  - unfold set_reasoning_count. cbn [output].
    intros H. apply (f_equal length) in H.
    rewrite length_app in H. simpl in H. lia.
Qed.

Lemma reasoning_line_bounded_witness :
  LogClaude "Analysis done" = LogClaude (Str.strip "  Analysis done ").
Proof.
  destruct (reasoning_line_bounded initial "  Analysis done "
              (LogClaude "Analysis done") eq_refl) as [[_ H]|[_ [H _]]].
  - exact H.
  - discriminate H.
Defined.

(** * Further properties of the run *)

#[local] Set Warnings "-clear-no-such-hyp".

Lemma handle_block_step_summary (st : monitor) (b : block) :
  step_summary (handle_block st b) = step_summary st.
Proof.
  destruct b as [tool_name input|is_error|text|]; simpl.
  - unfold handle_tool_use. by repeat case_decide.
  - unfold handle_tool_result. by case_match.
  - case_decide; [done|]. unfold handle_text. by repeat case_match.
  - done.
Qed.

(** The loop does not touch the step summary. *)
Lemma receive_loop_step_summary (ms : list message) (st : monitor) :
  step_summary (receive_loop ms st) = step_summary st.
Proof.
  rewrite receive_loop_blocks. revert st.
  induction (blocks_of ms) as [|b bs IH]; intros st; [done|].
  simpl. by rewrite IH, handle_block_step_summary.
Qed.

(** A line in the log after the loop is an event line or one of the
    five lines logged before the loop. *)
Lemma loop_entry_lines (ms : list message) (l : log_line) :
  l ∈ output (receive_loop ms loop_entry) →
  is_event_line l = true
  ∨ l ∈ [LogInitializing; LogSeparator; LogRunningAnalysis; LogMonitoring;
         LogRealTime].
Proof.
  rewrite receive_loop_blocks.
  destruct (foldl_lines (blocks_of ms) loop_entry) as (ls & -> & _ & _ & Hev).
  rewrite elem_of_app. intros [Hl|Hl]; [by right|left].
  by apply (proj1 (Forall_forall _ _) Hev).
Qed.

(** Splits a goal about [run w] into the paths of [main]. *)
Ltac run_cases :=
  run_main; fold loop_entry; repeat (case_match; simplify_eq/=);
  repeat match goal with u : () |- _ => destruct u end.

(** X6: an exception raised by the stream after some messages ends the
    run with exit status 1 and the outcome of its class.  The events
    received before it stay logged and counted; the lines of the
    [except] clause follow them directly, so neither the success banner
    nor the summary is logged, and nothing is appended to the step
    summary. *)
Theorem stream_failure_classified (w : world) (e : exception) :
  connect w = inr () → query w = inr () → receive_response_end w = inl e →
  exit_status w = 1
  ∧ outcome w = Failure (except_site e)
  ∧ output (final w)
    = output (receive_loop (receive_response w) loop_entry) ++ except_lines e
  ∧ tracker (final w) = tracker (receive_loop (receive_response w) loop_entry)
  ∧ step_summary (final w) = []
  ∧ LogCompletedOk ∉ output (final w).
Proof.
  intros Hconnect Hquery Hend.
  assert (exit_status w = 1
          ∧ outcome w = Failure (except_site e)
          ∧ final w
            = foldl (λ st l, log l st)
                (receive_loop (receive_response w) loop_entry)
                (except_lines e)) as (Hexit & Hout & Hfinal).
  { run_main. rewrite Hconnect, Hquery, Hend. simpl. fold loop_entry.
    unfold except_site, except_lines. by destruct (class_of e). }
  split; [done|]. split; [done|].
  assert (output (final w)
          = output (receive_loop (receive_response w) loop_entry)
            ++ except_lines e) as Hlines.
  { rewrite Hfinal. unfold except_lines.
    destruct (class_of e); simpl; by rewrite <- ?(assoc_L (++)). }
  split; [done|]. split; [|split].
  - rewrite Hfinal. unfold except_lines. by destruct (class_of e).
  - rewrite Hfinal. unfold except_lines.
    destruct (class_of e); simpl; by rewrite receive_loop_step_summary.
  - rewrite Hlines, elem_of_app. intros [H|H].
    + apply loop_entry_lines in H as [H|H]; [done|].
      rewrite !elem_of_cons, elem_of_nil in H. naive_solver.
    + unfold except_lines in H. destruct (class_of e);
        rewrite !elem_of_cons, elem_of_nil in H; naive_solver.
Qed.

Lemma stream_failure_classified_witness :
  exit_status
    (mkWorld (inr ()) (inr ()) scenario_A
             (inl (mkException ProcessError "exit code 137")) "r.md" true
             (inr 1%N) (inr "x") None (inr ())) = 1.
Proof.
  apply (stream_failure_classified _ (mkException ProcessError "exit code 137"));
    reflexivity.
Defined.

(** X7: the exit status is 0 or 1, and it is 0 exactly when the session
    connects, accepts the task and streams to its end, and the report
    file exists and its size and text can be read and, when
    GITHUB_STEP_SUMMARY is set and not empty, the step summary can be
    written.  No exception escapes [main]. *)
Theorem exit_status_zero_iff (w : world) :
  (exit_status w = 0 ↔ streamed w ∧ report_ok w)
  ∧ (exit_status w = 0 ↔ outcome w = Success)
  ∧ (exit_status w = 0 ∨ exit_status w = 1)
  ∧ (∀ e, outcome w ≠ Uncaught e).
Proof.
  unfold streamed, report_ok.
  run_cases; (split; [|split; [|split]]); naive_solver.
Qed.

(** X8: the step summary receives the text of the report followed by a
    line feed exactly when the run ends with exit status 0 and
    GITHUB_STEP_SUMMARY is set and not empty; in every other run nothing
    is appended to it. *)
Theorem step_summary_appended (w : world) :
  step_summary (final w)
  = if bool_decide (exit_status w = 0) && truthy (github_step_summary w)
    then match report_read_text w with
         | inr content => [content; String "010" ""]
         | inl _ => []
         end
    else [].
Proof. run_cases; by rewrite ?receive_loop_step_summary. Qed.

(** The names of a set of strings as [sorted] lists them. *)
Lemma sorted_elements (X : gset string) :
  let names := merge_sort String.le (elements X) in
  Sorted String.le names ∧ NoDup names
  ∧ (∀ n, n ∈ names ↔ n ∈ X) ∧ (names = [] ↔ X = ∅).
Proof.
  intros names.
  assert (names ≡ₚ elements X) as Hperm by apply merge_sort_Permutation.
  split; [apply (Sorted_merge_sort String.le)|].
  split; [rewrite Hperm; apply NoDup_elements|].
  split; [intros n; by rewrite Hperm, elem_of_elements|].
  split.
  - intros Hnil. rewrite Hnil in Hperm.
    apply leibniz_equiv, elements_empty_inv.
    by apply Permutation_nil in Hperm as ->.
  - intros ->. rewrite elements_empty in Hperm.
    by apply Permutation_nil_r.
Qed.

(** X9: when the stream ends normally, the success banner and the
    summary follow the event lines, whether or not a report was
    produced.  The tools line is left out when no tool was used;
    otherwise it lists each tool name of the stream once, in sorted
    order.  The summary reports, for each of the four categories, the
    number of tool invocations of the stream. *)
Theorem summary_reports_the_stream (w : world) :
  streamed w →
  ∃ names tail,
    output (final w)
    = output (receive_loop (receive_response w) loop_entry)
      ++ [LogSeparator; LogCompletedOk; LogBlank; LogFinalResults]
      ++ match names with [] => [] | _ => [LogToolsUsed names] end
      ++ [LogBlank; LogStatistics;
          LogSummary
            [count_category FileRead (blocks_of (receive_response w));
             count_category FileWrite (blocks_of (receive_response w));
             count_category CommandRun (blocks_of (receive_response w));
             count_category Search (blocks_of (receive_response w))]]
      ++ tail
    ∧ Sorted String.le names ∧ NoDup names
    ∧ (∀ n, n ∈ names
            ↔ ∃ input, ToolUseBlock n input ∈ blocks_of (receive_response w)).
Proof.
  intros (Hconnect & Hquery & Hend).
  set (st := receive_loop (receive_response w) loop_entry).
  destruct (sorted_elements (tools_used st)) as (Hsorted & Hnodup & Hin & Hnil).
  set (names := merge_sort String.le (elements (tools_used st))) in *.
  assert (get_summary (tracker st)
          = [count_category FileRead (blocks_of (receive_response w));
             count_category FileWrite (blocks_of (receive_response w));
             count_category CommandRun (blocks_of (receive_response w));
             count_category Search (blocks_of (receive_response w))])
    as Hsummary.
  { subst st. rewrite receive_loop_blocks. unfold get_summary.
    pose proof (λ c, foldl_length c (blocks_of (receive_response w))) as H.
    by rewrite (H FileRead), (H FileWrite), (H CommandRun), (H Search). }
  assert (∃ tail,
            output (final w)
            = output st
              ++ [LogSeparator; LogCompletedOk; LogBlank; LogFinalResults]
              ++ match names with [] => [] | _ => [LogToolsUsed names] end
              ++ [LogBlank; LogStatistics; LogSummary (get_summary (tracker st))]
              ++ tail) as [tail Htail].
  { run_main. rewrite Hconnect, Hquery, Hend. simpl.
    fold loop_entry. fold st. fold names.
    case_decide as Hused.
    - apply Hnil in Hused as ->. simpl.
      destruct (report_exists w); simpl;
        [destruct (report_st_size w) as [e|size]; simpl;
           [destruct (class_of e)
           |destruct (report_read_text w) as [e|content]; simpl;
              [|destruct (truthy (github_step_summary w)); simpl;
                  [destruct (step_summary_write w) as [e|[]]|]]]|];
        simpl; rewrite <- !(assoc_L (++)); simpl; eexists; reflexivity.
    - destruct names as [|n names'] eqn:Hnames; [by destruct Hused; apply Hnil|].
      rewrite <- Hnames. simpl.
      destruct (report_exists w); simpl;
        [destruct (report_st_size w) as [e|size]; simpl;
           [destruct (class_of e)
           |destruct (report_read_text w) as [e|content]; simpl;
              [|destruct (truthy (github_step_summary w)); simpl;
                  [destruct (step_summary_write w) as [e|[]]|]]]|];
        simpl; rewrite <- !(assoc_L (++)); simpl; eexists; reflexivity. }
  exists names, tail. rewrite Htail, Hsummary.
  split; [done|]. split; [done|]. split; [done|].
  intros n. rewrite Hin. subst st.
  rewrite receive_loop_blocks, foldl_tools_used.
  change (tools_used loop_entry) with (∅ : gset string).
  rewrite (right_id_L ∅ (∪)), elem_of_list_to_set.
  unfold tool_names. rewrite list_elem_of_bind. split.
  - intros ([n' input| | |] & Hn & Hb); simpl in Hn;
      try by apply elem_of_nil in Hn.
    apply list_elem_of_singleton in Hn as ->. by exists input.
  - intros [input Hb]. exists (ToolUseBlock n input).
    split; [apply list_elem_of_singleton; reflexivity | exact Hb].
Qed.

Lemma summary_reports_the_stream_witness :
  streamed world_no_report
  ∧ ∃ names,
      Sorted String.le names
      ∧ ∀ n, n ∈ names ↔ ∃ input, ToolUseBlock n input ∈ blocks_of scenario_A.
Proof.
  assert (streamed world_no_report) as H by (repeat split).
  split; [exact H|].
  destruct (summary_reports_the_stream world_no_report H)
    as (names & tail & _ & Hsorted & _ & Hin).
  exists names. split; [exact Hsorted | exact Hin].
Defined.

(** X10: the closing lines of [main] (the time of completion) are
    logged exactly in the runs that end with exit status 0; every
    [sys.exit(1)] leaves before them. *)
Theorem completion_trailer (w : world) :
  LogCompletedAt ∈ output (final w) ↔ exit_status w = 0.
Proof.
  assert (LogCompletedAt ∉ output (receive_loop (receive_response w) loop_entry))
    as Hloop.
  { intros [H|H]%loop_entry_lines; [done|].
    rewrite !elem_of_cons, elem_of_nil in H. naive_solver. }
  unfold loop_entry in Hloop.
  run_cases;
    rewrite ?elem_of_app, ?elem_of_cons, ?elem_of_nil; naive_solver.
Qed.

(** * Paths *)

Module PathFacts.
Import Pathlib.

Lemma split_slashless (x : string) : slashless x = true → split_slash x = [x].
Proof.
  induction x as [|c x IH]; [done|]. simpl.
  intros [Hc Hx]%andb_true_iff. apply negb_true_iff, bool_decide_eq_false in Hc.
  case_decide; [done|]. by rewrite IH.
Qed.

Lemma split_component (x s : string) :
  slashless x = true →
  split_slash (x +:+ String "/" s) = x :: split_slash s.
Proof.
  induction x as [|c x IH]; [done|].
  rewrite StrFacts.app_cons. simpl.
  intros [Hc Hx]%andb_true_iff. apply negb_true_iff, bool_decide_eq_false in Hc.
  case_decide; [done|]. by rewrite IH.
Qed.

Lemma split_join (xs : list string) :
  xs ≠ [] → Forall (λ x, slashless x = true) xs →
  split_slash (join_slash xs) = xs.
Proof.
  induction xs as [|x xs IH]; [done|]. intros _ Hxs.
  apply Forall_cons in Hxs as [Hx Hxs].
  destruct xs as [|y xs]; [by apply split_slashless|].
  change (join_slash (x :: y :: xs))
    with (x +:+ String "/" (join_slash (y :: xs))).
  rewrite split_component by done. by rewrite IH.
Qed.

Lemma split_slashless_components (s : string) :
  Forall (λ x, slashless x = true) (split_slash s).
Proof.
  induction s as [|c s IH]; simpl; [by repeat constructor|].
  case_decide as Hc; [by constructor|].
  destruct (split_slash s) as [|x xs].
  - repeat constructor. simpl. by rewrite bool_decide_eq_false_2.
  - apply Forall_cons in IH as [Hx Hxs]. constructor; [|done].
    simpl. by rewrite bool_decide_eq_false_2.
Qed.

Lemma filter_kept (xs : list string) :
  Forall (λ x, kept x = true ∧ slashless x = true) xs →
  List.filter kept xs = xs.
Proof.
  induction 1 as [|x xs [Hx _] _ IH]; [done|]. simpl. by rewrite Hx, IH.
Qed.

Lemma components_well_formed (s : string) :
  Forall (λ x, kept x = true ∧ slashless x = true)
         (List.filter kept (split_slash s)).
Proof.
  pose proof (split_slashless_components s) as H.
  induction H as [|x xs Hx _ IH]; simpl; [constructor|].
  destruct (kept x) eqn:Hk; [by constructor|done].
Qed.

(** Parsing gives a well-formed path. *)
Lemma parse_well_formed (s : string) : well_formed (parse s).
Proof.
  unfold parse, well_formed.
  destruct (splitroot s) as [r rel] eqn:Hroot. simpl. split.
  - unfold splitroot in Hroot. rewrite !elem_of_cons.
    repeat case_match; simplify_eq; tauto.
  - apply components_well_formed.
Qed.

Lemma splitroot_relative (c : ascii) (s : string) :
  c ≠ "/"%char → splitroot (String c s) = ("", String c s).
Proof. intros Hc. by destruct c as [[] [] [] [] [] [] [] []]. Qed.

Lemma splitroot_slash (c : ascii) (s : string) :
  c ≠ "/"%char → splitroot (String "/" (String c s)) = ("/", String c s).
Proof. intros Hc. by destruct c as [[] [] [] [] [] [] [] []]. Qed.

Lemma splitroot_two (c : ascii) (s : string) :
  c ≠ "/"%char →
  splitroot (String "/" (String "/" (String c s))) = ("//", String c s).
Proof. intros Hc. by destruct c as [[] [] [] [] [] [] [] []]. Qed.

(** The text of a non-empty list of components starts with a character
    that is not a slash. *)
Lemma join_head (x : string) (xs : list string) :
  kept x = true → slashless x = true →
  ∃ c s, c ≠ "/"%char ∧ join_slash (x :: xs) = String c s.
Proof.
  destruct x as [|c x]; [done|]. simpl.
  intros _ [Hc _]%andb_true_iff.
  apply negb_true_iff, bool_decide_eq_false in Hc.
  exists c. destruct xs; eauto.
Qed.

(** [Path(str(p)) == p] *)
Lemma parse_str (p : Path) : well_formed p → parse (str p) = p.
Proof.
  destruct p as [r xs]. intros [Hr Hxs]. simpl in Hr, Hxs.
  assert (Forall (λ x, slashless x = true) xs) as Hslash
    by (eapply Forall_impl; [done|]; by intros x [_ ?]).
  assert (xs ≠ [] → List.filter kept (split_slash (join_slash xs)) = xs)
    as Hparts.
  { intros Hne. rewrite split_join by done. by apply filter_kept. }
  unfold str, parse. simpl.
  destruct xs as [|x xs].
  - rewrite !elem_of_cons, elem_of_nil in Hr.
    destruct Hr as [->|[->|[->|[]]]]; reflexivity.
  - apply Forall_cons in Hxs as Hx. destruct Hx as [[Hk Hs] _].
    destruct (join_head x xs Hk Hs) as (c & s & Hc & Hjoin).
    specialize (Hparts ltac:(done)). rewrite Hjoin in Hparts |- *.
    rewrite !elem_of_cons, elem_of_nil in Hr.
    destruct Hr as [->|[->|[->|[]]]].
    + rewrite StrFacts.app_nil. case_decide; [done|].
      rewrite splitroot_relative by done. by rewrite Hparts.
    + change ("/" +:+ String c s) with (String "/" (String c s)).
      case_decide; [done|]. rewrite splitroot_slash by done.
      by rewrite Hparts.
    + change ("//" +:+ String c s) with (String "/" (String "/" (String c s))).
      case_decide; [done|]. rewrite splitroot_two by done.
      by rewrite Hparts.
Qed.

Lemma Forall_removelast {A} (P : A → Prop) (l : list A) :
  Forall P l → Forall P (removelast l).
Proof.
  induction 1 as [|a l Ha Hl IH]; simpl; [constructor|].
  destruct l; [constructor|]. by constructor.
Qed.

Lemma parent_well_formed (p : Path) : well_formed p → well_formed (parent p).
Proof.
  intros [Hr Hxs]. unfold parent. destruct (parts p) as [|x xs] eqn:Hp.
  - by split; [|rewrite Hp].
  - split; [done|]. by apply Forall_removelast.
Qed.




End PathFacts.

(** * The start of [main] *)

Lemma upper_lower_char (c : ascii) :
  Upper.upper_char (Str.lower_char c) = Upper.upper_char c.
Proof. by destruct c as [[] [] [] [] [] [] [] []]. Qed.

(** Upper-casing does not see the letter case of its argument. *)
Lemma upper_lower (s : string) : Upper.upper (Str.lower s) = Upper.upper s.
Proof.
  induction s as [|c s IH]; [done|]. simpl.
  by rewrite upper_lower_char, IH.
Qed.

Lemma upper_char_nonempty (c : ascii) : Upper.upper_char c ≠ [].
Proof. by destruct c as [[] [] [] [] [] [] [] []]. Qed.

Lemma upper_empty (s : string) : Upper.upper s = [] ↔ s = "".
Proof.
  split; [|by intros ->]. destruct s as [|c s]; [done|]. simpl.
  intros [H _]%app_eq_nil. by destruct (upper_char_nonempty c).
Qed.

(** X11: CONTEXT_FILE is read without regard to letter case.  Every
    spelling of claude.md is accepted and gives "CLAUDE.md", every
    spelling of agents.md gives "AGENTS.md"; an accepted value logs no
    error, always gives one of these two names, and each of the two
    names is itself accepted unchanged.  The empty value, and only it,
    is reported as missing. *)
Theorem context_file_any_case (value : string) :
  (Str.lower value = "claude.md" →
   choose_context_file value = ([], Some "CLAUDE.md"))
  ∧ (Str.lower value = "agents.md" →
     choose_context_file value = ([], Some "AGENTS.md"))
  ∧ (∀ lines name,
       choose_context_file value = (lines, Some name) →
       lines = [] ∧ name ∈ ["CLAUDE.md"; "AGENTS.md"]
       ∧ choose_context_file name = ([], Some name))
  ∧ (choose_context_file value
     = ([StartNoContextFile; StartPleaseSpecify], None)
     ↔ value = "").
Proof.
  unfold choose_context_file. split; [|split; [|split]].
  - intros H. rewrite <- upper_lower, H. by vm_compute.
  - intros H. rewrite <- upper_lower, H. by vm_compute.
  - intros lines name Hchosen.
    assert (lines = [] ∧ name ∈ ["CLAUDE.md"; "AGENTS.md"]) as [-> Hname].
    { revert Hchosen. repeat case_decide; intros [= <- <-];
        (split; [done|]); rewrite !elem_of_cons; tauto. }
    split; [done|]. split; [done|].
    rewrite !elem_of_cons, elem_of_nil in Hname.
    destruct Hname as [->|[->|[]]]; by vm_compute.
  - rewrite <- (upper_empty value). repeat case_decide; split; try done.
Qed.

Lemma context_file_any_case_witness :
  Str.lower "cLaUdE.Md" = "claude.md"
  ∧ choose_context_file "cLaUdE.Md" = ([], Some "CLAUDE.md").
Proof.
  split; [reflexivity|].
  by apply (context_file_any_case "cLaUdE.Md").
Defined.

Lemma bind_result {A B} (m : Startup A) (f : A → Startup B) :
  (m ≫= f).2 = m.2 ≫= λ a, (f a).2.
Proof.
  destruct m as [lines [a|]]; [|done].
  unfold mbind, Startup_bind, option_bind. simpl. by destruct (f a).
Qed.


Lemma prepare_environ_result (h : host) (key : string) :
  (prepare_environ h key).2
  = Some match find_local_bin h with
         | Some bin =>
             <["PATH" := bin +:+ String ":"
                           (default "" (<["ANTHROPIC_API_KEY" := key]>
                                          (environ h) !! "PATH"))]>
               (<["ANTHROPIC_API_KEY" := key]> (environ h))
         | None => <["ANTHROPIC_API_KEY" := key]> (environ h)
         end.
Proof. unfold prepare_environ. by destruct (find_local_bin h). Qed.

Lemma say_result {B} (line : startup_line) (f : () → Startup B) :
  (say line ≫= f).2 = (f ()).2.
Proof. by rewrite bind_result. Qed.

Lemma option_bind_some {A B} (a : A) (g : A → option B) :
  Some a ≫= g = g a.
Proof. reflexivity. Qed.

(** What a successful start hands on. *)
Lemma preflight_config (h : host) (cfg : config) :
  (preflight h).2 = Some cfg
  ↔ truthy (environ h !! "CLAUDE_API_KEY") = true
    ∧ ∃ cf prompts env,
        (choose_context_file (default "" (environ h !! "CONTEXT_FILE"))).2
        = Some cf
        ∧ (prepare_environ h (default "" (environ h !! "CLAUDE_API_KEY"))).2
          = Some env
        ∧ (load_prompts h
             ("AI_CONTEXT_RECOMMENDATIONS_" +:+ timestamp h +:+ ".md") cf).2
          = Some prompts
        ∧ cfg
          = mkConfig
              (Pathlib.parse
                 (default "/github/workspace" (environ h !! "WORKSPACE_DIR")))
              ("AI_CONTEXT_RECOMMENDATIONS_" +:+ timestamp h +:+ ".md")
              (Pathlib.joinpath
                 (Pathlib.parse
                    (default "/github/workspace"
                       (environ h !! "WORKSPACE_DIR")))
                 ("AI_CONTEXT_RECOMMENDATIONS_" +:+ timestamp h +:+ ".md"))
              (truthy (environ h !! "GITHUB_STEP_SUMMARY")) cf
              (find_existing h
                 (Pathlib.parse
                    (default "/github/workspace"
                       (environ h !! "WORKSPACE_DIR"))) cf)
              env prompts.1 prompts.2.
Proof.
  unfold preflight. rewrite !say_result.
  destruct (truthy (environ h !! "CLAUDE_API_KEY")); cbn [negb];
    [|rewrite say_result; split; [done|by intros [? _]]].
  rewrite bind_result.
  destruct ((choose_context_file _).2) as [cf|];
    [|split; [done|by intros (_ & ? & ? & ? & ? & _)]].
  rewrite option_bind_some, say_result, bind_result.
  rewrite prepare_environ_result, option_bind_some, say_result, bind_result.
  destruct ((load_prompts h _ cf).2) as [prompts|] eqn:Hload.
  2: { split; [done|]. intros (_ & cf' & p & env & [= <-] & _ & Hp & _).
       by rewrite Hload in Hp. }
  rewrite option_bind_some. split.
  - intros [= <-]. split; [done|]. by eexists cf, prompts, _.
  - intros (_ & cf' & prompts' & env & [= <-] & [= <-] & Hp & ->).
    rewrite Hload in Hp. by injection Hp as <-.
Qed.




Lemma truthy_some (value : option string) :
  truthy value = true → ∃ s, value = Some s ∧ s ≠ "".
Proof.
  destruct value as [s|]; [|done]. simpl.
  intros Hs%negb_true_iff. exists s. split; [done|]. intros ->. done.
Qed.

(** X13: a successful start changes two variables of the environment
    and no other.  ANTHROPIC_API_KEY takes the value of CLAUDE_API_KEY.
    PATH gets the directory of the local CLI put in front, separated by
    a colon, when one of the two locations exists, and stays as it was
    otherwise; the location in the container, /agent/node_modules/.bin,
    is taken whenever it exists. *)
Theorem environ_changes (h : host) (cfg : config) :
  (preflight h).2 = Some cfg →
  new_environ cfg !! "ANTHROPIC_API_KEY" = environ h !! "CLAUDE_API_KEY"
  ∧ (∀ k, k ≠ "ANTHROPIC_API_KEY" → k ≠ "PATH" →
          new_environ cfg !! k = environ h !! k)
  ∧ new_environ cfg !! "PATH"
    = match find_local_bin h with
      | Some bin =>
          Some (bin +:+ String ":" (default "" (environ h !! "PATH")))
      | None => environ h !! "PATH"
      end
  ∧ (path_exists h (Pathlib.parse "/agent/node_modules/.bin") = true →
     find_local_bin h = Some "/agent/node_modules/.bin").
Proof.
  intros (Hkey & cf & prompts & env & _ & Henv & _ & ->)%preflight_config.
  rewrite prepare_environ_result in Henv. injection Henv as <-.
  apply truthy_some in Hkey as (key & Hkey & _). rewrite Hkey.
  cbn [new_environ default].
  split; [|split; [|split]].
  - destruct (find_local_bin h);
      by rewrite ?lookup_insert_ne, lookup_insert_eq by done.
  - intros k Hk1 Hk2.
    destruct (find_local_bin h); by rewrite !lookup_insert_ne by done.
  - destruct (find_local_bin h).
    + by rewrite lookup_insert_eq, lookup_insert_ne by done.
    + by rewrite lookup_insert_ne by done.
  - intros Hdocker. unfold find_local_bin. simpl. by rewrite Hdocker.
Qed.

Lemma environ_changes_witness :
  ∃ cfg, (preflight sample_host).2 = Some cfg
         ∧ new_environ cfg !! "ANTHROPIC_API_KEY" = Some "key"
         ∧ new_environ cfg !! "CONTEXT_FILE" = Some "Claude.md".
Proof.
  eexists. split; [reflexivity|].
  destruct (environ_changes sample_host _ eq_refl) as (Hkey & Hframe & _).
  split; [exact Hkey|]. by apply Hframe.
Defined.





Lemma preflight_no_key (h : host) :
  truthy (environ h !! "CLAUDE_API_KEY") = false → (preflight h).2 = None.
Proof.
  intros Hkey. unfold preflight. rewrite !say_result, Hkey. cbn [negb].
  by rewrite say_result.
Qed.


(** X16: started through [run.py], the agent works on the directory
    [run.py] chose: the parent of the current directory when that is
    named "agent", the current directory otherwise.  The value is
    handed over in WORKSPACE_DIR and read back unchanged, whatever that
    variable held before. *)
Theorem local_run_workspace (l : local_host) (cfg : config) :
  Pathlib.well_formed (cwd l) →
  (preflight (local_agent_host l)).2 = Some cfg →
  workspace_dir cfg = local_workspace (cwd l)
  ∧ (Pathlib.name (cwd l) = "agent" →
     workspace_dir cfg = Pathlib.parent (cwd l))
  ∧ (Pathlib.name (cwd l) ≠ "agent" → workspace_dir cfg = cwd l).
Proof.
  intros Hwf (_ & cf & prompts & env & _ & _ & _ & ->)%preflight_config.
  cbn [workspace_dir local_agent_host environ].
  rewrite lookup_insert_eq. cbn [from_option id].
  assert (Pathlib.well_formed (local_workspace (cwd l))) as Hw.
  { unfold local_workspace. case_decide; [|done].
    by apply PathFacts.parent_well_formed. }
  rewrite PathFacts.parse_str by done.
  unfold local_workspace. split; [done|].
  split; intros ?; by case_decide.
Qed.

Lemma local_run_workspace_witness :
  Pathlib.well_formed (cwd sample_local)
  ∧ ∃ cfg, (preflight (local_agent_host sample_local)).2 = Some cfg
           ∧ Pathlib.str (workspace_dir cfg) = "/home/user/project".
Proof.
  assert (Pathlib.well_formed (cwd sample_local)) as Hwf
    by apply PathFacts.parse_well_formed.
  split; [exact Hwf|].
  eexists. split; [reflexivity|].
  destruct (local_run_workspace sample_local _ Hwf eq_refl) as [-> _].
  reflexivity.
Defined.

(** X17: [run.py] ends with exit status 0 exactly when the interpreter
    is at least version 3.12, [entrypoint] can be imported and [main]
    ends with exit status 0.  Its own check of CLAUDE_API_KEY never
    changes the result: without the key [main] would exit with status 1
    as well. *)
Theorem local_exit_zero_iff (l : local_host) :
  local_exit_status l = 0
  ↔ (3 < (version_info l).1
     ∨ (version_info l).1 = 3 ∧ 12 ≤ (version_info l).2)%nat
    ∧ import_ok l = true
    ∧ main_exit_status (local_agent_host l) = 0.
Proof.
  unfold local_exit_status, version_too_old.
  destruct (version_info l) as [major minor]. simpl.
  destruct (major <? 3)%nat eqn:H1; simpl.
  { apply Nat.ltb_lt in H1. split; [done|]. lia. }
  apply Nat.ltb_ge in H1.
  destruct (major =? 3)%nat eqn:H2; simpl.
  - apply Nat.eqb_eq in H2.
    destruct (minor <? 12)%nat eqn:H3; simpl.
    { apply Nat.ltb_lt in H3. split; [done|]. lia. }
    apply Nat.ltb_ge in H3.
    destruct (truthy _) eqn:Hkey; simpl.
    + destruct (import_ok l); simpl; [|naive_solver]. naive_solver.
    + pose proof (preflight_no_key (local_agent_host l) Hkey) as Hnone.
      unfold main_exit_status. rewrite Hnone. naive_solver.
  - apply Nat.eqb_neq in H2.
    destruct (truthy _) eqn:Hkey; simpl.
    + destruct (import_ok l); simpl; [|naive_solver].
      split; [intros ->; split; [lia|done]|tauto].
    + pose proof (preflight_no_key (local_agent_host l) Hkey) as Hnone.
      unfold main_exit_status. rewrite Hnone. naive_solver.
Qed.
